(** * Busting Bias: the offline-caching service worker and the response guard
      of the game

    A shallow embedding of [service-worker.js] (both copies of the worker: the
    one whose precache list leaves the offline page commented out, and the one
    that lists it) and of [handleResponse] of the two [game.js] variants.

    The worker is event-driven code over three host services: the cache
    storage ([caches]), the network ([fetch]) and the console.  The host is
    modelled as an explicit [World]; every handler is a computation in a
    state-and-exception monad over it, written statement by statement as in
    the JavaScript. *)

From Stdlib Require Import String Ascii List Bool Arith ZArith Lia.
From stdpp Require Import base option strings gmap list pretty.

Local Open Scope string_scope.
Local Open Scope list_scope.
Local Open Scope stdpp_scope.

(** ** Host data *)

Module Host.

(** What a response carries: the HTTP status, the body and the field names of
    its [Vary] header. *)
Record ResponseData := { status : nat; body : string; vary : list string }.

(** [Response.ok]: the status is in the range 200-299. *)
Definition ok (d : ResponseData) : bool :=
  Nat.leb 200 (status d) && Nat.leb (status d) 299.

(** What [cache.put] accepts: not a partial response (status 206) and not a
    response whose [Vary] header holds [*]. *)
Definition storable (d : ResponseData) : bool :=
  negb (Nat.eqb (status d) 206) && negb (existsb (String.eqb "*") (vary d)).

(** A JavaScript [Response] object.  Its body is a stream that can be read
    once; [bodyUsed] records that it has been read. *)
Record Response := { content : ResponseData; bodyUsed : bool }.

(** Objects live in a heap and are referred to by their address, so that two
    responses with the same content are still two objects. *)
Definition ref := nat.

(** A [Request], as far as the worker looks at it: [req.url] (an absolute,
    serialised URL) and [req.mode].  Requests are GET requests; the page issues
    no others. *)
Record Request := { url : string; mode : string }.

(** One cache bucket maps request URLs to stored responses.  The cache storage
    lists the buckets by name, in creation order ([caches.keys()] and
    [caches.match] go through them in that order). *)
Definition CacheStorage := list (string * gmap string ResponseData).

(** A piece of work that was started but is not awaited by the code that
    started it: the only one in the worker is [cache.put(req, copy)]. *)
Inductive Task :=
| TaskPut (cache : string) (key : string) (resp : ref).

(** What the worker does to its host, in order. *)
Inductive Event :=
| NetFetch (u : string)
| CacheMatch (u : string)
| CacheOpen (name : string)
| CachePut (name : string) (u : string)
| CacheKeys
| CacheDelete (name : string)
| ConsoleLog (msg : string)
| ConsoleWarn (msg : string)
| SkipWaiting
| ClientsClaim.

Record World := {
  caches : CacheStorage;
  heap : list Response;
  pending : list Task;
  trace : list Event
}.

Definition set_caches (s : CacheStorage) (w : World) : World :=
  {| caches := s; heap := heap w; pending := pending w; trace := trace w |}.
Definition set_heap (h : list Response) (w : World) : World :=
  {| caches := caches w; heap := h; pending := pending w; trace := trace w |}.
Definition set_pending (p : list Task) (w : World) : World :=
  {| caches := caches w; heap := heap w; pending := p; trace := trace w |}.
Definition set_trace (t : list Event) (w : World) : World :=
  {| caches := caches w; heap := heap w; pending := pending w; trace := t |}.

(** *** Cache storage as a data structure *)

Fixpoint storage_lookup (name : string) (s : CacheStorage)
  : option (gmap string ResponseData) :=
  match s with
  | [] => None
  | (n, c) :: s' => if String.eqb n name then Some c else storage_lookup name s'
  end.

Definition storage_keys (s : CacheStorage) : list string := map fst s.

(** [caches.open(name)] creates the bucket when it is absent. *)
Definition storage_open (name : string) (s : CacheStorage) : CacheStorage :=
  match storage_lookup name s with
  | Some _ => s
  | None => s ++ [(name, ∅)]
  end.

Definition storage_delete (name : string) (s : CacheStorage) : CacheStorage :=
  List.filter (fun p => negb (String.eqb (fst p) name)) s.

(** [cache.put] on the bucket [name]: the entry of the key is replaced, or
    added when there was none. *)
Fixpoint storage_put (name key : string) (d : ResponseData) (s : CacheStorage)
  : CacheStorage :=
  match s with
  | [] => []
  | (n, c) :: s' =>
      if String.eqb n name then (n, <[key := d]> c) :: s'
      else (n, c) :: storage_put name key d s'
  end.

(** [caches.match(request)]: the first bucket, in creation order, that holds
    the request answers. *)
Fixpoint storage_match (key : string) (s : CacheStorage) : option ResponseData :=
  match s with
  | [] => None
  | (_, c) :: s' =>
      match c !! key with
      | Some d => Some d
      | None => storage_match key s'
      end
  end.

(** The entry of [key] in the bucket [name], if both exist. *)
Definition bucket_entry (name key : string) (s : CacheStorage)
  : option ResponseData :=
  match storage_lookup name s with
  | Some c => c !! key
  | None => None
  end.

(** The storage restricted to the buckets of one name. *)
Definition keep (name : string) (s : CacheStorage) : CacheStorage :=
  List.filter (fun p => String.eqb (fst p) name) s.

(** *** The monad of handler code *)

(** A step either returns a value or throws (a rejected promise is a throw at
    the [await]); the world it leaves behind is kept in both cases. *)
Inductive Result (A : Type) :=
| Ok (a : A)
| Throw (err : string).
Arguments Ok {A} a.
Arguments Throw {A} err.

Definition M (A : Type) : Type := World -> Result A * World.

#[export] Instance M_ret : MRet M := fun A a w => (Ok a, w).
#[export] Instance M_bind : MBind M := fun A B f m w =>
  match m w with
  | (Ok a, w') => f a w'
  | (Throw e, w') => (Throw e, w')
  end.

Definition throw {A : Type} (err : string) : M A := fun w => (Throw err, w).

(** [try { body } catch (err) { handler }] *)
Definition try_catch {A : Type} (body : M A) (handler : string -> M A) : M A :=
  fun w =>
    match body w with
    | (Ok a, w') => (Ok a, w')
    | (Throw e, w') => handler e w'
    end.

(** [for (const x of xs) { body }] *)
Fixpoint for_of {A : Type} (xs : list A) (body : A -> M unit) : M unit :=
  match xs with
  | [] => mret tt
  | x :: xs' => body x ;; for_of xs' body
  end.

Definition gets {A : Type} (f : World -> A) : M A := fun w => (Ok (f w), w).
Definition modify (f : World -> World) : M unit := fun w => (Ok tt, f w).

Definition emit (e : Event) : M unit :=
  modify (fun w => set_trace (trace w ++ [e]) w).

Definition exec {A : Type} (m : M A) (w : World) : World := snd (m w).
Definition result {A : Type} (m : M A) (w : World) : Result A := fst (m w).

End Host.

(** ** The service worker *)

Module ServiceWorker.
Import Host.

Definition CACHE_NAME : string := "busting-bias-v2".

Section Worker.

(** The origin the worker is served from: the paths of the precache list and
    ["/offline.html"] are resolved against it. *)
Variable origin : string.

(** The network, as the worker meets it: the response to a URL, or [None] when
    the fetch fails (offline, DNS failure, timeout). *)
Variable network : string -> option ResponseData.

(** The precache list of the worker (the two copies of the file differ in it
    only). *)
Variable PRECACHE_ASSETS : list string.

Definition absolute (path : string) : string := origin +:+ path.

(** *** Host services *)

(** The services follow the browser's Cache and Fetch interfaces, as far as
    the worker uses them.  The storage is a durable key-value service keyed by
    request: opening, listing and deleting succeed; what can fail is a fetch,
    [cache.add] of a failed or refused fetch, [cache.put] of a response that
    the cache does not accept, and a second read of a response body. *)

Definition console_log (msg : string) : M unit := emit (ConsoleLog msg).
Definition console_warn (msg : string) : M unit := emit (ConsoleWarn msg).
Definition skipWaiting : M unit := emit SkipWaiting.
Definition clients_claim : M unit := emit ClientsClaim.

Definition new_response (d : ResponseData) : M ref :=
  r ← gets (fun w => length (heap w));
  modify (fun w =>
    set_heap (heap w ++ [{| content := d; bodyUsed := false |}]) w) ;;
  mret r.

(** One attempt on the network; a failure rejects. *)
Definition net_fetch (u : string) : M ResponseData :=
  emit (NetFetch u) ;;
  match network u with
  | Some d => mret d
  | None => throw "TypeError: Failed to fetch"
  end.

(** [fetch(req)] *)
Definition fetch (req : Request) : M ref :=
  d ← net_fetch (url req); new_response d.

(** [caches.match(key)]: a hit is handed out as a response object of its own. *)
Definition caches_match (key : string) : M (option ref) :=
  emit (CacheMatch key) ;;
  s ← gets caches;
  match storage_match key s with
  | Some d => r ← new_response d; mret (Some r)
  | None => mret None
  end.

(** [caches.open(name)]; the handle of a bucket is its name. *)
Definition caches_open (name : string) : M string :=
  emit (CacheOpen name) ;;
  modify (fun w => set_caches (storage_open name (caches w)) w) ;;
  mret name.

(** [caches.keys()] *)
Definition caches_keys : M (list string) :=
  emit CacheKeys ;;
  gets (fun w => storage_keys (caches w)).

(** [caches.delete(name)]: resolves to whether the bucket existed. *)
Definition caches_delete (name : string) : M bool :=
  emit (CacheDelete name) ;;
  found ← gets (fun w => bool_decide (is_Some (storage_lookup name (caches w))));
  modify (fun w => set_caches (storage_delete name (caches w)) w) ;;
  mret found.

Definition cache_store (cache key : string) (d : ResponseData) : M unit :=
  emit (CachePut cache key) ;;
  modify (fun w => set_caches (storage_put cache key d (caches w)) w).

(** [cache.add(path)]: fetch the asset, refuse a response that is not [ok],
    store it.  The request of [cache.add] is a plain GET without a [Range]
    header, which is not answered with a partial response, and the assets of
    the list are taken to be served without [Vary: *], which [cache.add]
    would refuse into the same [catch]. *)
Definition cache_add (cache path : string) : M unit :=
  d ← net_fetch (absolute path);
  if ok d then cache_store cache (absolute path) d
  else throw "TypeError: Request failed".

(** Reading the body of a response object consumes it; a second read throws. *)
Definition read_body (r : ref) : M ResponseData :=
  obj ← gets (fun w => heap w !! r);
  match obj with
  | Some o =>
      if bodyUsed o then throw "TypeError: body stream already read"
      else
        modify (fun w =>
          set_heap (<[r := {| content := content o; bodyUsed := true |}]>
                      (heap w)) w) ;;
        mret (content o)
  | None => throw "TypeError: not a Response"
  end.

(** [resp.clone()]: a second object with the same content, without reading
    either body; refused once the body was read. *)
Definition clone (r : ref) : M ref :=
  obj ← gets (fun w => heap w !! r);
  match obj with
  | Some o =>
      if bodyUsed o then throw "TypeError: Response body is already used"
      else new_response (content o)
  | None => throw "TypeError: not a Response"
  end.

(** [cache.put(key, resp)]: a partial response and a response that varies on
    everything are refused, before the body is touched; otherwise the body of
    [resp] is read and stored. *)
Definition cache_put (cache key : string) (r : ref) : M unit :=
  obj ← gets (fun w => heap w !! r);
  match obj with
  | Some o =>
      if storable (content o)
      then d ← read_body r; cache_store cache key d
      else throw "TypeError: Partial response (status code 206) is unsupported"
  | None => throw "TypeError: not a Response"
  end.

(** A call whose promise is dropped: the work is queued and the caller goes
    on. *)
Definition spawn (t : Task) : M unit :=
  modify (fun w => set_pending (pending w ++ [t]) w).

Definition run_task (t : Task) : M unit :=
  match t with
  | TaskPut cache key r => cache_put cache key r
  end.

(** The queued work runs to its end; a rejection there has no handler and is
    dropped. *)
Fixpoint run_tasks (ts : list Task) (w : World) : World :=
  match ts with
  | [] => w
  | t :: ts' => run_tasks ts' (exec (run_task t) w)
  end.

Definition settle (w : World) : World :=
  run_tasks (pending w) (set_pending [] w).

(** [Promise.all] *)
Fixpoint promise_all {A : Type} (ps : list (M A)) : M (list A) :=
  match ps with
  | [] => mret []
  | p :: ps' => a ← p; rest ← promise_all ps'; mret (a :: rest)
  end.

(** *** install *)

Definition onInstall : M unit :=
  (cache ← caches_open CACHE_NAME;
   for_of PRECACHE_ASSETS (fun asset =>
     try_catch
       (cache_add cache asset ;;
        console_log ("[SW] Cached: " +:+ asset))
       (fun err =>
        console_warn ("[SW] Failed to cache " +:+ asset +:+ ": " +:+ err)))) ;;
  skipWaiting.

(** *** activate *)

Definition onActivate : M unit :=
  (keys ← caches_keys;
   promise_all
     (map (fun key =>
             if String.eqb key CACHE_NAME then mret None
             else deleted ← caches_delete key; mret (Some deleted))
          keys)) ;;
  clients_claim.

(** *** fetch *)

(** What the page gets for its request: the request is left to the browser
    ([event.respondWith] was not called), or the worker answers with a
    response, or the promise given to [respondWith] did not produce a response
    (it resolved to [undefined] or rejected), which the page sees as a network
    error. *)
Inductive Reply :=
| PassThrough
| RespondWith (r : ref)
| NetworkError.

Definition respondWith (p : M (option ref)) (w : World) : Reply * World :=
  match p w with
  | (Ok (Some r), w') => (RespondWith r, w')
  | (Ok None, w') => (NetworkError, w')
  | (Throw _, w') => (NetworkError, w')
  end.

Definition onFetch (req : Request) (w : World) : Reply * World :=
  if negb (String.prefix "http" (url req)) then (PassThrough, w)
  else if String.eqb (mode req) "navigate" then
    respondWith
      (try_catch
         (r ← fetch req; mret (Some r))
         (fun _ =>
            m ← caches_match (url req);
            match m with
            | Some _ => mret m
            | None => caches_match (absolute "/offline.html")
            end))
      w
  else
    respondWith
      (cached ← caches_match (url req);
       match cached with
       | Some _ => mret cached
       | None =>
           try_catch
             (fresh ← fetch req;
              (if String.prefix "http" (url req) then
                 cache ← caches_open CACHE_NAME;
                 copy ← clone fresh;
                 spawn (TaskPut cache (url req) copy)
               else mret tt) ;;
              mret (Some fresh))
             (fun _ => mret cached)
       end)
      w.

(** *** The precache loop, turn by turn *)

(** The body of the loop of [onInstall], by itself. *)
Definition precache_body (cache : string) (asset : string) : M unit :=
  try_catch
    (cache_add cache asset ;;
     console_log ("[SW] Cached: " +:+ asset))
    (fun err =>
     console_warn ("[SW] Failed to cache " +:+ asset +:+ ": " +:+ err)).

(** What the loop amounts to on the bucket: what [cache.add] will store for a
    URL, if anything, and the bucket after one turn and after all of them. *)
Definition fetched (u : string) : option ResponseData :=
  match network u with
  | Some d => if ok d then Some d else None
  | None => None
  end.

Definition precache_one (c : gmap string ResponseData) (asset : string)
  : gmap string ResponseData :=
  match fetched (absolute asset) with
  | Some d => <[absolute asset := d]> c
  | None => c
  end.

Definition precache_bucket (assets : list string) (c : gmap string ResponseData)
  : gmap string ResponseData :=
  fold_left precache_one assets c.

End Worker.

(** *** The two copies of the worker *)

(** [service-worker.js]: the offline page is commented out of the list
    ("add later if you create it"). *)
Definition PRECACHE_ASSETS : list string :=
  [ "/";
    "/index.html";
    "/style.css";
    "/game.js";
    "/manifest.json";
    "/icons/icon-192.png";
    "/icons/icon-512.png";
    "/correct.wav";
    "/incorrect.wav" ].

(** The annotated copy of the worker lists the offline page as well. *)
Definition PRECACHE_ASSETS_with_offline : list string :=
  PRECACHE_ASSETS ++ [ "/offline.html" ].

(** *** Vocabulary of the properties *)

(** The number of network calls in a trace. *)
Definition net_calls (t : list Event) : nat :=
  length (List.filter (fun e => match e with NetFetch _ => true | _ => false end) t).

(** No bucket but the current one exists: the storage as activation leaves
    it. *)
Definition only_current (s : CacheStorage) : Prop :=
  exists c, s = [(CACHE_NAME, c)].

(** What the deletions of [onActivate] do to the storage, key by key. *)
Definition sweep (keys : list string) (s : CacheStorage) : CacheStorage :=
  fold_left
    (fun s key => if String.eqb key CACHE_NAME then s else storage_delete key s)
    keys s.

(** The warning of the [catch] branch for an asset is among the events. *)
Definition warned (asset : string) (evs : list Event) : Prop :=
  exists err,
    In (ConsoleWarn ("[SW] Failed to cache " +:+ asset +:+ ": " +:+ err)) evs.

(** The scheme of a serialised URL: what stands before the first colon. *)
Fixpoint scheme (u : string) : string :=
  match u with
  | EmptyString => EmptyString
  | String c u' => if Ascii.eqb c ":" then EmptyString else String c (scheme u')
  end.


(** A world in which nothing happened yet: no bucket, no object, no queued
    work. *)
Definition fresh_world : World :=
  {| caches := []; heap := []; pending := []; trace := [] |}.

(** The references of the queued work point into the heap. *)
Definition tasks_wf (w : World) : Prop :=
  forallb (fun t => match t with TaskPut _ _ r => Nat.ltb r (length (heap w)) end)
          (pending w) = true.

End ServiceWorker.

(** ** The game: answering a stimulus *)

(** The first [game.js]: words, a history of answers kept in [localStorage],
    feedback marks. *)
Module WordGame.

Record Stimulus := { word : string; correct : string }.

(** One recorded answer.  [timeTaken] is kept in milliseconds (the script
    divides by 1000 to show seconds). *)
Record Attempt := {
  a_word : string;
  a_choice : string;
  a_isCorrect : bool;
  a_timeTaken : Z;
  a_correctAnswer : string
}.

(** [setTimeout] callbacks of [showFeedback]. *)
Inductive Callback :=
| RemoveShake
| HideFeedbackAndAdvance.

Record Game := {
  (* the script's variables *)
  stimuli : list Stimulus;
  currentIndex : nat;
  score : nat;
  responses : list Attempt;
  startTime : Z;
  (* the page *)
  scoreDisplay : string;
  feedbackText : string;
  feedbackClass : string;
  feedbackDisplay : string;
  stimulusClasses : list string;
  (* the browser *)
  now : Z;
  played : list string;
  timers : list (nat * Callback);
  gameData : option (list Attempt)
}.

Definition originalStimuli : list Stimulus :=
  [ {| word := "Apple"; correct := "left" |};
    {| word := "Banana"; correct := "right" |};
    {| word := "Dog"; correct := "right" |};
    {| word := "Car"; correct := "left" |} ].

Definition updateScoreDisplay (final : bool) (g : Game) : Game :=
  {| stimuli := stimuli g; currentIndex := currentIndex g; score := score g;
     responses := responses g; startTime := startTime g;
     scoreDisplay :=
       if final
       then "Final Score: " +:+ pretty (score g) +:+ " / "
              +:+ pretty (length (stimuli g))
       else "Score: " +:+ pretty (score g);
     feedbackText := feedbackText g; feedbackClass := feedbackClass g;
     feedbackDisplay := feedbackDisplay g;
     stimulusClasses := stimulusClasses g;
     now := now g; played := played g; timers := timers g;
     gameData := gameData g |}.

Definition saveResponse (response : Attempt) (g : Game) : Game :=
  {| stimuli := stimuli g; currentIndex := currentIndex g; score := score g;
     responses := responses g ++ [response]; startTime := startTime g;
     scoreDisplay := scoreDisplay g;
     feedbackText := feedbackText g; feedbackClass := feedbackClass g;
     feedbackDisplay := feedbackDisplay g;
     stimulusClasses := stimulusClasses g;
     now := now g; played := played g; timers := timers g;
     gameData := Some (responses g ++ [response]) |}.

Definition showFeedback (isCorrect : bool) (g : Game) : Game :=
  {| stimuli := stimuli g; currentIndex := currentIndex g; score := score g;
     responses := responses g; startTime := startTime g;
     scoreDisplay := scoreDisplay g;
     feedbackText := if isCorrect then "✔" else "✘";
     feedbackClass := if isCorrect then "correct" else "incorrect";
     feedbackDisplay := "block";
     stimulusClasses :=
       if isCorrect then stimulusClasses g else stimulusClasses g ++ ["shake"];
     now := now g;
     played :=
       played g ++ [if isCorrect then "correct-sound" else "incorrect-sound"];
     timers :=
       timers g
         ++ (if isCorrect then [] else [(400, RemoveShake)])
         ++ [(600, HideFeedbackAndAdvance)];
     gameData := gameData g |}.

Definition add_score (g : Game) : Game :=
  {| stimuli := stimuli g; currentIndex := currentIndex g; score := S (score g);
     responses := responses g; startTime := startTime g;
     scoreDisplay := scoreDisplay g;
     feedbackText := feedbackText g; feedbackClass := feedbackClass g;
     feedbackDisplay := feedbackDisplay g;
     stimulusClasses := stimulusClasses g;
     now := now g; played := played g; timers := timers g;
     gameData := gameData g |}.

Definition handleResponse (choice : string) (g : Game) : Game :=
  if Nat.leb (length (stimuli g)) (currentIndex g) then g
  else
    match stimuli g !! currentIndex g with
    | None => g
    | Some wordObj =>
        let isCorrect := String.eqb choice (correct wordObj) in
        let g := if isCorrect then add_score g else g in
        let g := updateScoreDisplay false g in
        let timeTaken := (now g - startTime g)%Z in
        let g :=
          saveResponse
            {| a_word := word wordObj; a_choice := choice;
               a_isCorrect := isCorrect; a_timeTaken := timeTaken;
               a_correctAnswer := correct wordObj |} g in
        showFeedback isCorrect g
    end.

End WordGame.

(** The second [game.js]: alien images, a recap list built while playing. *)
Module AlienGame.

Record Stimulus := { image : string; correct : string }.

(** A row of the recap: thumbnail, the choice in capitals, the category of the
    alien (its CSS class and its label), the mark. *)
Record Row := {
  thumbnail : string;
  choiceShown : string;
  categoryClass : string;
  categoryLabel : string;
  mark : string
}.

Inductive Callback :=
| Advance.

Record Game := {
  (* the script's variables *)
  stimuli : list Stimulus;
  currentIndex : nat;
  score : nat;
  (* the page *)
  scoreDisplay : string;
  feedbackText : string;
  attemptsList : list Row;
  (* the browser *)
  played : list string;
  timers : list (nat * Callback)
}.

Definition upper (c : ascii) : ascii :=
  let n := nat_of_ascii c in
  if Nat.leb 97 n && Nat.leb n 122 then ascii_of_nat (n - 32) else c.

Fixpoint toUpperCase (s : string) : string :=
  match s with
  | EmptyString => EmptyString
  | String c s' => String (upper c) (toUpperCase s')
  end.

Definition logAttempt (alien : Stimulus) (choice : string) (g : Game) : Game :=
  let isCorrect := String.eqb choice (correct alien) in
  {| stimuli := stimuli g; currentIndex := currentIndex g; score := score g;
     scoreDisplay := scoreDisplay g; feedbackText := feedbackText g;
     attemptsList :=
       attemptsList g ++
       [ {| thumbnail := image alien;
            choiceShown := toUpperCase choice;
            categoryClass :=
              if String.eqb (correct alien) "right" then "positive" else "negative";
            categoryLabel :=
              if String.eqb (correct alien) "right" then "Positive" else "Negative";
            mark := if isCorrect then "✔" else "✘" |} ];
     played := played g; timers := timers g |}.

Definition answer_feedback (isCorrect : bool) (g : Game) : Game :=
  if isCorrect then
    {| stimuli := stimuli g; currentIndex := currentIndex g;
       score := S (score g);
       scoreDisplay := "Score: " +:+ pretty (S (score g));
       feedbackText := "Positive";
       attemptsList := attemptsList g;
       played := played g ++ ["/sounds/positive.wav"];
       timers := timers g |}
  else
    {| stimuli := stimuli g; currentIndex := currentIndex g; score := score g;
       scoreDisplay := scoreDisplay g;
       feedbackText := "Negative";
       attemptsList := attemptsList g;
       played := played g ++ ["/sounds/negative.wav"];
       timers := timers g |}.

Definition setTimeout (cb : Callback) (delay : nat) (g : Game) : Game :=
  {| stimuli := stimuli g; currentIndex := currentIndex g; score := score g;
     scoreDisplay := scoreDisplay g; feedbackText := feedbackText g;
     attemptsList := attemptsList g;
     played := played g; timers := timers g ++ [(delay, cb)] |}.

Definition handleResponse (choice : string) (g : Game) : Game :=
  if Nat.leb (length (stimuli g)) (currentIndex g) then g
  else
    match stimuli g !! currentIndex g with
    | None => g
    | Some alien =>
        let isCorrect := String.eqb choice (correct alien) in
        let g := answer_feedback isCorrect g in
        let g := logAttempt alien choice g in
        setTimeout Advance 600 g
    end.

End AlienGame.

(** ** Sample worlds and networks *)

Module Samples.
Import Host ServiceWorker.

Definition stale_and_current : World :=
  {| caches :=
       [ ("busting-bias-v1", {[ "https://busting-bias.test/" :=
                                  {| status := 200; body := "old page"; vary := [] |} ]});
         (CACHE_NAME, {[ "https://busting-bias.test/" :=
                           {| status := 200; body := "new page"; vary := [] |} ]});
         ("scratch", ∅) ];
     heap := []; pending := []; trace := [] |}.


Definition stylesheet : ResponseData :=
  {| status := 200; body := "body { margin: 0 }"; vary := [] |}.

Definition activated_world : World :=
  {| caches := [(CACHE_NAME, {[ "https://busting-bias.test/style.css" := stylesheet ]})];
     heap := []; pending := []; trace := [] |}.

Definition offline (u : string) : option ResponseData := None.

Definition game_script : ResponseData :=
  {| status := 200; body := "document.addEventListener(...)"; vary := [] |}.

Definition serves_game_js (u : string) : option ResponseData :=
  if String.eqb u "https://busting-bias.test/game.js" then Some game_script
  else None.

(** What an audio element gets for its range request. *)
Definition partial_audio : ResponseData :=
  {| status := 206; body := "RIFF...WAVEfmt"; vary := [] |}.

Definition serves_partial_audio (u : string) : option ResponseData :=
  if String.eqb u "https://busting-bias.test/sounds/positive.wav"
  then Some partial_audio else None.

Definition home_page : ResponseData :=
  {| status := 200; body := "<!doctype html>"; vary := [] |}.

Definition world_with_home : World :=
  {| caches := [(CACHE_NAME, {[ "https://busting-bias.test/" := home_page ]})];
     heap := []; pending := []; trace := [] |}.

Definition serves_everything (u : string) : option ResponseData :=
  Some {| status := 200; body := u; vary := [] |}.

(** A game of the first script after its four words were answered. *)
Definition finished_words : WordGame.Game :=
  {| WordGame.stimuli := WordGame.originalStimuli;
     WordGame.currentIndex := 4;
     WordGame.score := 3;
     WordGame.responses := [];
     WordGame.startTime := 0;
     WordGame.scoreDisplay := "Final Score: 3 / 4";
     WordGame.feedbackText := "✔";
     WordGame.feedbackClass := "correct";
     WordGame.feedbackDisplay := "none";
     WordGame.stimulusClasses := [];
     WordGame.now := 5000;
     WordGame.played := [];
     WordGame.timers := [];
     WordGame.gameData := None |}.

(** A game of the second script past its two aliens. *)
Definition finished_aliens : AlienGame.Game :=
  {| AlienGame.stimuli :=
       [ {| AlienGame.image := "/images/alien01_blue.png";
            AlienGame.correct := "right" |};
         {| AlienGame.image := "/images/alien01_brown.png";
            AlienGame.correct := "left" |} ];
     AlienGame.currentIndex := 2;
     AlienGame.score := 1;
     AlienGame.scoreDisplay := "Score: 1";
     AlienGame.feedbackText := "";
     AlienGame.attemptsList := [];
     AlienGame.played := [];
     AlienGame.timers := [] |}.

End Samples.

(** ** The effects of the worker, as lists *)

Module WorkerEffects.
Import Host ServiceWorker.

(** The URLs fetched from the network, in order. *)
Definition fetches (evs : list Event) : list string :=
  flat_map (fun e => match e with NetFetch u => [u] | _ => [] end) evs.

(** The cache lookups, in order. *)
Definition lookups (evs : list Event) : list string :=
  flat_map (fun e => match e with CacheMatch u => [u] | _ => [] end) evs.

(** The buckets deleted, in order. *)
Definition deletions (evs : list Event) : list string :=
  flat_map (fun e => match e with CacheDelete n => [n] | _ => [] end) evs.

(** What one turn of the precache loop does, as events. *)
Definition asset_events (origin : string)
    (network : string -> option ResponseData) (asset : string) : list Event :=
  NetFetch (absolute origin asset) ::
  match network (absolute origin asset) with
  | Some d =>
      if ok d
      then [ CachePut CACHE_NAME (absolute origin asset);
             ConsoleLog ("[SW] Cached: " +:+ asset) ]
      else [ ConsoleWarn ("[SW] Failed to cache " +:+ asset +:+ ": "
                            +:+ "TypeError: Request failed") ]
  | None =>
      [ ConsoleWarn ("[SW] Failed to cache " +:+ asset +:+ ": "
                       +:+ "TypeError: Failed to fetch") ]
  end.

(** The keys that are not the current one. *)
Definition stale (keys : list string) : list string :=
  List.filter (fun key => negb (String.eqb key CACHE_NAME)) keys.

End WorkerEffects.

(** ** More sample worlds *)

Module MoreSamples.
Import Host ServiceWorker Samples.

Definition fresh_home : ResponseData :=
  {| status := 200; body := "<!doctype html><title>v2</title>"; vary := [] |}.

Definition serves_home (u : string) : option ResponseData :=
  if String.eqb u "https://busting-bias.test/" then Some fresh_home else None.

End MoreSamples.

(** ** The first script, beyond [handleResponse]: a game from start to end *)

Module WordPlay.
Import WordGame.

(** A row of the attempts panel: its number, the word, the two labels, the
    mark, the time (in milliseconds, as the answers keep it) and the class of
    the row. *)
Record Row := {
  rowClass : string;
  rowIndex : nat;
  rowWord : string;
  rowChoice : string;
  rowCorrect : string;
  rowResult : string;
  rowTime : Z
}.

(** The page and the touch variables that [handleResponse] does not touch. *)
Record Page := {
  stimulusText : string;
  leftDisabled : bool;
  rightDisabled : bool;
  restartHidden : bool;
  gameOverText : string;
  gameOverHidden : bool;
  attemptsHidden : bool;
  attemptsDisplay : string;
  attemptsRows : list Row;
  trophiesHidden : bool;
  trophiesDisplay : string;
  trophiesItems : list string;
  debugLog : list string;
  scrolls : nat;
  transition : string;
  transform : string;
  touchStartX : Z;
  currentX : Z;
  isDragging : bool
}.

Record Screen := { game : Game; page : Page }.

Definition on_game (f : Game -> Game) (s : Screen) : Screen :=
  {| game := f (game s); page := page s |}.

Definition on_page (f : Page -> Page) (s : Screen) : Screen :=
  {| game := game s; page := f (page s) |}.

(** *** Trophies *)

Definition perfect_trophy : string :=
  "🏆 Perfect Score: You got everything right!".
Definition persistence_trophy : string :=
  "🏆 Persistence: You played 10 or more rounds!".
Definition fast_trophy : string :=
  "🏆 Fast Swiper: You responded quickly 5 or more times!".

Definition checkTrophies (score : nat) (responses : list Attempt) : list string :=
  let totalQuestions := length responses in
  let fastResponses :=
    List.filter (fun response => Z.leb (a_timeTaken response) 2000) responses in
  (if Nat.eqb score totalQuestions then [perfect_trophy] else [])
    ++ (if Nat.leb 10 (length responses) then [persistence_trophy] else [])
    ++ (if Nat.leb 5 (length fastResponses) then [fast_trophy] else []).

(** *** The end of the game *)

(** The row of one answer; [count] is the number of rows already in the
    list. *)
Definition attempt_row (count : nat) (response : Attempt) : Row :=
  let chosenLabel :=
    if String.eqb (a_choice response) "left" then "Left" else "Right" in
  let correctLabel :=
    if negb (String.eqb (a_correctAnswer response) "")
    then (if String.eqb (a_correctAnswer response) "left"
          then "Left" else "Right")
    else (if a_isCorrect response then chosenLabel
          else (if String.eqb (a_choice response) "left"
                then "Right" else "Left")) in
  {| rowClass := if a_isCorrect response then "correct" else "incorrect";
     rowIndex := count + 1;
     rowWord := a_word response;
     rowChoice := chosenLabel;
     rowCorrect := correctLabel;
     rowResult := if a_isCorrect response then "✔" else "✘";
     rowTime := a_timeTaken response |}.

(** [responses.forEach(...)] appending to the emptied list. *)
Definition attempt_rows (responses : list Attempt) : list Row :=
  fold_left (fun rows response => rows ++ [attempt_row (length rows) response])
            responses [].

Definition endGame (s : Screen) : Screen :=
  let g := updateScoreDisplay true (game s) in
  let trophies := checkTrophies (score g) (responses g) in
  {| game := g;
     page :=
       {| stimulusText := "🎉 Game Over!";
          leftDisabled := true;
          rightDisabled := true;
          restartHidden := false;
          gameOverText :=
            "You scored " +:+ pretty (score g) +:+ " out of "
              +:+ pretty (length (stimuli g)) +:+ "!";
          gameOverHidden := false;
          attemptsHidden := false;
          attemptsDisplay := "block";
          attemptsRows := attempt_rows (responses g);
          trophiesHidden := false;
          trophiesDisplay := "block";
          trophiesItems :=
            if Nat.eqb (length trophies) 0
            then trophies ++ ["No trophies earned this time. Try again!"]
            else trophies;
          debugLog := debugLog (page s) ++ ["[Busting Bias] endGame() reached"];
          scrolls := S (scrolls (page s));
          transition := transition (page s);
          transform := transform (page s);
          touchStartX := touchStartX (page s);
          currentX := currentX (page s);
          isDragging := isDragging (page s) |} |}.

(** *** Showing a word *)

Definition set_stimulusText (text : string) (p : Page) : Page :=
  {| stimulusText := text;
     leftDisabled := leftDisabled p; rightDisabled := rightDisabled p;
     restartHidden := restartHidden p;
     gameOverText := gameOverText p; gameOverHidden := gameOverHidden p;
     attemptsHidden := attemptsHidden p; attemptsDisplay := attemptsDisplay p;
     attemptsRows := attemptsRows p;
     trophiesHidden := trophiesHidden p; trophiesDisplay := trophiesDisplay p;
     trophiesItems := trophiesItems p;
     debugLog := debugLog p; scrolls := scrolls p;
     transition := transition p; transform := transform p;
     touchStartX := touchStartX p; currentX := currentX p;
     isDragging := isDragging p |}.

(** [classList.remove(...)] *)
Definition remove_classes (names classes : list string) : list string :=
  List.filter (fun c => negb (existsb (String.eqb c) names)) classes.

Definition show_word (animClass : string) (g : Game) : Game :=
  {| stimuli := stimuli g; currentIndex := currentIndex g; score := score g;
     responses := responses g; startTime := now g;
     scoreDisplay := scoreDisplay g;
     feedbackText := feedbackText g; feedbackClass := feedbackClass g;
     feedbackDisplay := feedbackDisplay g;
     stimulusClasses :=
       remove_classes ["slide-in-left"; "slide-in-right"; "shake"]
                      (stimulusClasses g) ++ [animClass];
     now := now g; played := played g; timers := timers g;
     gameData := gameData g |}.

Definition showNextStimulus (s : Screen) : Screen :=
  if Nat.ltb (currentIndex (game s)) (length (stimuli (game s))) then
    match stimuli (game s) !! currentIndex (game s) with
    | None => s
    | Some stimulus =>
        let animClass :=
          if String.eqb (correct stimulus) "left"
          then "slide-in-left" else "slide-in-right" in
        {| game := show_word animClass (game s);
           page := set_stimulusText (word stimulus) (page s) |}
    end
  else endGame s.

(** *** Starting a game *)

Definition reset_game (shuffled : list Stimulus) (g : Game) : Game :=
  {| stimuli := shuffled; currentIndex := 0; score := 0;
     responses := []; startTime := startTime g;
     scoreDisplay := scoreDisplay g;
     feedbackText := feedbackText g; feedbackClass := feedbackClass g;
     feedbackDisplay := feedbackDisplay g;
     stimulusClasses := stimulusClasses g;
     now := now g; played := played g; timers := timers g;
     gameData := gameData g |}.

Definition reset_page (p : Page) : Page :=
  {| stimulusText := stimulusText p;
     leftDisabled := false; rightDisabled := false;
     restartHidden := true;
     gameOverText := gameOverText p; gameOverHidden := true;
     attemptsHidden := true; attemptsDisplay := "none";
     attemptsRows := attemptsRows p;
     trophiesHidden := true; trophiesDisplay := "none";
     trophiesItems := trophiesItems p;
     debugLog := debugLog p; scrolls := scrolls p;
     transition := transition p; transform := transform p;
     touchStartX := touchStartX p; currentX := currentX p;
     isDragging := isDragging p |}.

(** [initGame()]; [shuffled] is what [shuffleArray([...originalStimuli])]
    returned, some rearrangement of the list. *)
Definition initGame (shuffled : list Stimulus) (s : Screen) : Screen :=
  showNextStimulus
    {| game := updateScoreDisplay false (reset_game shuffled (game s));
       page := reset_page (page s) |}.

(** *** Timers *)

Definition set_timers (ts : list (nat * Callback)) (g : Game) : Game :=
  {| stimuli := stimuli g; currentIndex := currentIndex g; score := score g;
     responses := responses g; startTime := startTime g;
     scoreDisplay := scoreDisplay g;
     feedbackText := feedbackText g; feedbackClass := feedbackClass g;
     feedbackDisplay := feedbackDisplay g;
     stimulusClasses := stimulusClasses g;
     now := now g; played := played g; timers := ts;
     gameData := gameData g |}.

Definition unshake (g : Game) : Game :=
  {| stimuli := stimuli g; currentIndex := currentIndex g; score := score g;
     responses := responses g; startTime := startTime g;
     scoreDisplay := scoreDisplay g;
     feedbackText := feedbackText g; feedbackClass := feedbackClass g;
     feedbackDisplay := feedbackDisplay g;
     stimulusClasses := remove_classes ["shake"] (stimulusClasses g);
     now := now g; played := played g; timers := timers g;
     gameData := gameData g |}.

Definition hide_feedback_and_step (g : Game) : Game :=
  {| stimuli := stimuli g; currentIndex := S (currentIndex g); score := score g;
     responses := responses g; startTime := startTime g;
     scoreDisplay := scoreDisplay g;
     feedbackText := feedbackText g; feedbackClass := feedbackClass g;
     feedbackDisplay := "none";
     stimulusClasses := stimulusClasses g;
     now := now g; played := played g; timers := timers g;
     gameData := gameData g |}.

(** The body of a [setTimeout] callback of [showFeedback]. *)
Definition callback (cb : Callback) (s : Screen) : Screen :=
  match cb with
  | RemoveShake => on_game unshake s
  | HideFeedbackAndAdvance => showNextStimulus (on_game hide_feedback_and_step s)
  end.

(** The pending timer number [i] fires: it leaves the list and its callback
    runs. *)
Definition fire (i : nat) (s : Screen) : Screen :=
  match timers (game s) !! i with
  | None => s
  | Some (_, cb) =>
      callback cb (on_game (set_timers (delete i (timers (game s)))) s)
  end.

(** All pending timers fire, in the order in which they were set. *)
Definition drain (s : Screen) : Screen :=
  fold_left (fun s cb => callback (snd cb) s) (timers (game s))
            (on_game (set_timers []) s).

(** Time passes. *)
Definition wait (ms : Z) (g : Game) : Game :=
  {| stimuli := stimuli g; currentIndex := currentIndex g; score := score g;
     responses := responses g; startTime := startTime g;
     scoreDisplay := scoreDisplay g;
     feedbackText := feedbackText g; feedbackClass := feedbackClass g;
     feedbackDisplay := feedbackDisplay g;
     stimulusClasses := stimulusClasses g;
     now := (now g + ms)%Z; played := played g; timers := timers g;
     gameData := gameData g |}.

(** *** The listeners *)

Definition keydown (key : string) (s : Screen) : Screen :=
  let s := if String.eqb key "ArrowLeft"
           then on_game (handleResponse "left") s else s in
  if String.eqb key "ArrowRight"
  then on_game (handleResponse "right") s else s.

Definition set_touch (transition' transform' : string) (startX curX : Z)
    (dragging : bool) (p : Page) : Page :=
  {| stimulusText := stimulusText p;
     leftDisabled := leftDisabled p; rightDisabled := rightDisabled p;
     restartHidden := restartHidden p;
     gameOverText := gameOverText p; gameOverHidden := gameOverHidden p;
     attemptsHidden := attemptsHidden p; attemptsDisplay := attemptsDisplay p;
     attemptsRows := attemptsRows p;
     trophiesHidden := trophiesHidden p; trophiesDisplay := trophiesDisplay p;
     trophiesItems := trophiesItems p;
     debugLog := debugLog p; scrolls := scrolls p;
     transition := transition'; transform := transform';
     touchStartX := startX; currentX := curX;
     isDragging := dragging |}.

Definition touchstart (screenX : Z) (s : Screen) : Screen :=
  on_page (fun p =>
    set_touch "none" (transform p) screenX (currentX p) true p) s.

Definition touchmove (screenX : Z) (s : Screen) : Screen :=
  if negb (isDragging (page s)) then s
  else
    on_page (fun p =>
      let offset := (screenX - touchStartX p)%Z in
      set_touch (transition p) ("translateX(" +:+ pretty offset +:+ "px)")
                (touchStartX p) screenX true p) s.

Definition touchend (s : Screen) : Screen :=
  if negb (isDragging (page s)) then s
  else
    let s :=
      on_page (fun p =>
        set_touch (transition p) (transform p) (touchStartX p) (currentX p)
                  false p) s in
    let swipeDistance := (currentX (page s) - touchStartX (page s))%Z in
    if Z.ltb 100 (Z.abs swipeDistance) then
      let choice := if Z.ltb 0 swipeDistance then "right" else "left" in
      on_game (handleResponse choice) s
    else
      on_page (fun p =>
        set_touch "transform 0.3s ease" "translateX(0)"
                  (touchStartX p) (currentX p) (isDragging p) p) s.

(** What can happen to the page.  A click reaches a button that is enabled
    and shown. *)
Inductive Input :=
| ClickLeft
| ClickRight
| ClickRestart (shuffled : list Stimulus)
| KeyDown (key : string)
| TouchStart (screenX : Z)
| TouchMove (screenX : Z)
| TouchEnd
| Fire (i : nat)
| Wait (ms : Z).

Definition step (s : Screen) (i : Input) : Screen :=
  match i with
  | ClickLeft =>
      if leftDisabled (page s) then s else on_game (handleResponse "left") s
  | ClickRight =>
      if rightDisabled (page s) then s else on_game (handleResponse "right") s
  | ClickRestart shuffled =>
      if restartHidden (page s) then s else initGame shuffled s
  | KeyDown key => keydown key s
  | TouchStart x => touchstart x s
  | TouchMove x => touchmove x s
  | TouchEnd => touchend s
  | Fire i => fire i s
  | Wait ms => on_game (wait ms) s
  end.

Definition run (inputs : list Input) (s : Screen) : Screen :=
  fold_left step inputs s.

(** One round of an orderly game: the player waits, answers, and the timers
    of the answer fire. *)
Definition round (s : Screen) (answer : string * Z) : Screen :=
  drain (on_game (handleResponse (fst answer)) (on_game (wait (snd answer)) s)).

Definition play (answers : list (string * Z)) (s : Screen) : Screen :=
  fold_left round answers s.

(** The attempt that an answer to a stimulus records. *)
Definition attempt_of (st : Stimulus) (answer : string * Z) : Attempt :=
  {| a_word := word st;
     a_choice := fst answer;
     a_isCorrect := String.eqb (fst answer) (correct st);
     a_timeTaken := snd answer;
     a_correctAnswer := correct st |}.

(** The page of a finished game. *)
Definition over (s : Screen) : Prop :=
  leftDisabled (page s) = true /\
  rightDisabled (page s) = true /\
  restartHidden (page s) = false /\
  gameOverHidden (page s) = false /\
  gameOverText (page s)
    = "You scored " +:+ pretty (score (game s)) +:+ " out of "
        +:+ pretty (length (stimuli (game s))) +:+ "!" /\
  scoreDisplay (game s)
    = "Final Score: " +:+ pretty (score (game s)) +:+ " / "
        +:+ pretty (length (stimuli (game s))) /\
  attemptsHidden (page s) = false /\
  attemptsRows (page s) = attempt_rows (responses (game s)).

(** The number of answers recorded as correct. *)
Definition correct_answers (responses : list Attempt) : nat :=
  length (List.filter a_isCorrect responses).

(** The score and the stored answers agree with the recorded answers. *)
Definition counted (g : Game) : Prop :=
  score g = correct_answers (responses g) /\
  (responses g = [] \/ gameData g = Some (responses g)).

End WordPlay.

(** ** The second script, beyond [handleResponse] *)

Module AlienPlay.
Import AlienGame.

(** *** The stimuli *)

Definition alienColors : list string := ["blue"; "brown"; "green"; "grey"].
Definition alienTypes : list string := ["alien01"; "alien02"].

(** The two nested [forEach] loops that fill [originalStimuli]. *)
Definition buildStimuli (types colors : list string) : list Stimulus :=
  mjoin
    (imap (fun tIndex type =>
       imap (fun cIndex color =>
         let imagePath := "/images/" +:+ type +:+ "_" +:+ color +:+ ".png" in
         let category :=
           if Nat.eqb ((tIndex + cIndex) mod 2) 0 then "right" else "left" in
         {| image := imagePath; correct := category |})
         colors)
       types).

Definition originalStimuli : list Stimulus := buildStimuli alienTypes alienColors.

(** *** The page *)

Record Page := {
  stimulusHTML : string;
  leftDisabled : bool;
  rightDisabled : bool;
  restartHidden : bool;
  skipHidden : bool;
  gameOverText : string;
  gameOverHidden : bool;
  attemptsHidden : bool
}.

Record Screen := { game : Game; page : Page }.

Definition on_game (f : Game -> Game) (s : Screen) : Screen :=
  {| game := f (game s); page := page s |}.

(** The double quote, for the markup. *)
Definition dq : string := String (ascii_of_nat 34) EmptyString.

Definition endGame (s : Screen) : Screen :=
  {| game := game s;
     page :=
       {| stimulusHTML := "";
          leftDisabled := true;
          rightDisabled := true;
          restartHidden := false;
          skipHidden := true;
          gameOverText := "Game Over!";
          gameOverHidden := false;
          attemptsHidden := false |} |}.

Definition clear_feedback (g : Game) : Game :=
  {| stimuli := stimuli g; currentIndex := currentIndex g; score := score g;
     scoreDisplay := scoreDisplay g; feedbackText := "";
     attemptsList := attemptsList g;
     played := played g; timers := timers g |}.

Definition set_stimulusHTML (html : string) (p : Page) : Page :=
  {| stimulusHTML := html;
     leftDisabled := leftDisabled p; rightDisabled := rightDisabled p;
     restartHidden := restartHidden p; skipHidden := skipHidden p;
     gameOverText := gameOverText p; gameOverHidden := gameOverHidden p;
     attemptsHidden := attemptsHidden p |}.

Definition showNextStimulus (s : Screen) : Screen :=
  if Nat.ltb (currentIndex (game s)) (length (stimuli (game s))) then
    match stimuli (game s) !! currentIndex (game s) with
    | None => s
    | Some alien =>
        {| game := clear_feedback (game s);
           page :=
             set_stimulusHTML
               ("<img src=" +:+ dq +:+ image alien +:+ dq
                  +:+ " alt=" +:+ dq +:+ "Alien "
                  +:+ pretty (currentIndex (game s) + 1) +:+ dq
                  +:+ " style=" +:+ dq +:+ "max-width:100%; height:auto;"
                  +:+ dq +:+ ">")
               (page s) |}
    end
  else endGame s.

(** [initGame()]; [shuffled] is what [shuffleArray([...originalStimuli])]
    returned. *)
Definition initGame (shuffled : list Stimulus) (s : Screen) : Screen :=
  showNextStimulus
    {| game :=
         {| stimuli := shuffled; currentIndex := 0; score := 0;
            scoreDisplay := "Score: 0";
            feedbackText := feedbackText (game s);
            attemptsList := [];
            played := played (game s); timers := timers (game s) |};
       page :=
         {| stimulusHTML := stimulusHTML (page s);
            leftDisabled := false; rightDisabled := false;
            restartHidden := true; skipHidden := false;
            gameOverText := gameOverText (page s); gameOverHidden := true;
            attemptsHidden := true |} |}.

(** *** Timers *)

Definition set_timers (ts : list (nat * Callback)) (g : Game) : Game :=
  {| stimuli := stimuli g; currentIndex := currentIndex g; score := score g;
     scoreDisplay := scoreDisplay g; feedbackText := feedbackText g;
     attemptsList := attemptsList g;
     played := played g; timers := ts |}.

Definition step_index (g : Game) : Game :=
  {| stimuli := stimuli g; currentIndex := S (currentIndex g); score := score g;
     scoreDisplay := scoreDisplay g; feedbackText := feedbackText g;
     attemptsList := attemptsList g;
     played := played g; timers := timers g |}.

Definition callback (cb : Callback) (s : Screen) : Screen :=
  match cb with
  | Advance => showNextStimulus (on_game step_index s)
  end.

Definition fire (i : nat) (s : Screen) : Screen :=
  match timers (game s) !! i with
  | None => s
  | Some (_, cb) =>
      callback cb (on_game (set_timers (delete i (timers (game s)))) s)
  end.

(** *** The listeners *)

Definition keydown (key : string) (s : Screen) : Screen :=
  let s := if String.eqb key "ArrowLeft"
           then on_game (handleResponse "left") s else s in
  if String.eqb key "ArrowRight"
  then on_game (handleResponse "right") s else s.

(** What can happen to the page.  A click reaches a button that is enabled
    and shown. *)
Inductive Input :=
| ClickLeft
| ClickRight
| ClickRestart (shuffled : list Stimulus)
| ClickSkip
| KeyDown (key : string)
| Fire (i : nat).

Definition step (s : Screen) (i : Input) : Screen :=
  match i with
  | ClickLeft =>
      if leftDisabled (page s) then s else on_game (handleResponse "left") s
  | ClickRight =>
      if rightDisabled (page s) then s else on_game (handleResponse "right") s
  | ClickRestart shuffled =>
      if restartHidden (page s) then s else initGame shuffled s
  | ClickSkip => if skipHidden (page s) then s else endGame s
  | KeyDown key => keydown key s
  | Fire i => fire i s
  end.

Definition run (inputs : list Input) (s : Screen) : Screen :=
  fold_left step inputs s.

(** The rows of the recap marked as right. *)
Definition right_rows (rows : list Row) : nat :=
  length (List.filter (fun row => String.eqb (mark row) "✔") rows).

(** The score agrees with the recap. *)
Definition tallied (g : Game) : Prop := score g = right_rows (attemptsList g).

End AlienPlay.

(** ** Sample screens *)

Module GameSamples.
Import WordGame WordPlay.

(** The page of the first script as the document is loaded. *)
Definition blank_page : Page :=
  {| stimulusText := "";
     leftDisabled := false; rightDisabled := false;
     restartHidden := true;
     gameOverText := ""; gameOverHidden := true;
     attemptsHidden := true; attemptsDisplay := "";
     attemptsRows := [];
     trophiesHidden := true; trophiesDisplay := "";
     trophiesItems := [];
     debugLog := []; scrolls := 0;
     transition := ""; transform := "";
     touchStartX := 0; currentX := 0; isDragging := false |}.

Definition blank_game : Game :=
  {| stimuli := []; currentIndex := 0; score := 0; responses := [];
     startTime := 0;
     scoreDisplay := ""; feedbackText := ""; feedbackClass := "";
     feedbackDisplay := ""; stimulusClasses := [];
     now := 1000; played := []; timers := []; gameData := None |}.

Definition blank_screen : Screen := {| game := blank_game; page := blank_page |}.

(** Four answers, the third one wrong. *)
Definition four_answers : list (string * Z) :=
  [ ("left", 900%Z); ("right", 1500%Z); ("left", 700%Z); ("left", 2500%Z) ].

End GameSamples.

(** ** A sample screen of the second script *)

Module AlienSamples.
Import AlienGame AlienPlay.

(** The page of the second script as the document is loaded. *)
Definition loaded_aliens : Screen :=
  {| game :=
       {| stimuli := []; currentIndex := 0; score := 0;
          scoreDisplay := ""; feedbackText := ""; attemptsList := [];
          played := []; timers := [] |};
     page :=
       {| stimulusHTML := "";
          leftDisabled := false; rightDisabled := false;
          restartHidden := true; skipHidden := false;
          gameOverText := ""; gameOverHidden := true;
          attemptsHidden := true |} |}.

(** A game started on the stimuli in the order in which they are built. *)
Definition first_alien : Screen := initGame originalStimuli loaded_aliens.

End AlienSamples.

(** * Properties *)

(** ** The cache storage *)

Module StorageFacts.
Import Host.

Lemma storage_match_None (key : string) (s : CacheStorage) :
  storage_match key s = None <-> Forall (fun p => snd p !! key = None) s.
Proof.
  induction s as [|[n c] s IH]; simpl.
  - split; [constructor | reflexivity].
  - destruct (c !! key) as [d|] eqn:E.
    + split; [discriminate | intros H; inversion H; simpl in *; congruence].
    + rewrite IH. split.
      * intros H. constructor; assumption.
      * intros H. inversion H; assumption.
Qed.

Lemma storage_match_app (key : string) (s1 s2 : CacheStorage) :
  storage_match key (s1 ++ s2) =
  match storage_match key s1 with
  | Some d => Some d
  | None => storage_match key s2
  end.
Proof.
  induction s1 as [|[n c] s1 IH]; simpl; [reflexivity|].
  destruct (c !! key); [reflexivity | exact IH].
Qed.

Lemma storage_lookup_app (name : string) (s1 s2 : CacheStorage) :
  storage_lookup name (s1 ++ s2) =
  match storage_lookup name s1 with
  | Some c => Some c
  | None => storage_lookup name s2
  end.
Proof.
  induction s1 as [|[n c] s1 IH]; simpl; [reflexivity|].
  destruct (String.eqb n name); [reflexivity | exact IH].
Qed.

(** A bucket that exists splits the storage at its first occurrence. *)
Lemma storage_lookup_split (name : string) (s : CacheStorage) c :
  storage_lookup name s = Some c ->
  exists pre post,
    s = pre ++ (name, c) :: post /\ storage_lookup name pre = None.
Proof.
  induction s as [|[n c'] s IH]; simpl; [discriminate|].
  destruct (String.eqb_spec n name) as [->|Hne].
  - intros [= ->]. exists [], s. split; reflexivity.
  - intros H. destruct (IH H) as (pre & post & -> & Hpre).
    exists ((n, c') :: pre), post. split; [reflexivity|].
    simpl. destruct (String.eqb_spec n name); [contradiction | exact Hpre].
Qed.

Lemma storage_lookup_mid (name : string) (pre post : CacheStorage) c :
  storage_lookup name pre = None ->
  storage_lookup name (pre ++ (name, c) :: post) = Some c.
Proof.
  intros H. rewrite storage_lookup_app, H. simpl.
  now rewrite String.eqb_refl.
Qed.

Lemma storage_put_mid (name key : string) d (pre post : CacheStorage) c :
  storage_lookup name pre = None ->
  storage_put name key d (pre ++ (name, c) :: post)
  = pre ++ (name, <[key := d]> c) :: post.
Proof.
  induction pre as [|[n c'] pre IH]; simpl.
  - intros _. now rewrite String.eqb_refl.
  - destruct (String.eqb n name); [discriminate|].
    intros H. now rewrite IH.
Qed.

Lemma storage_open_exists (name : string) (s : CacheStorage) :
  exists c, storage_lookup name (storage_open name s) = Some c.
Proof.
  unfold storage_open. destruct (storage_lookup name s) as [c|] eqn:E.
  - exists c. exact E.
  - exists ∅. rewrite storage_lookup_app, E. simpl. now rewrite String.eqb_refl.
Qed.

Lemma storage_open_idem (name : string) (s : CacheStorage) c :
  storage_lookup name s = Some c -> storage_open name s = s.
Proof. unfold storage_open. now intros ->. Qed.

Lemma storage_match_open (name key : string) (s : CacheStorage) :
  storage_match key (storage_open name s) = storage_match key s.
Proof.
  unfold storage_open. destruct (storage_lookup name s); [reflexivity|].
  rewrite storage_match_app. destruct (storage_match key s); [reflexivity|].
  simpl. now rewrite lookup_empty.
Qed.

Lemma bucket_entry_open (name key : string) (s : CacheStorage) :
  bucket_entry name key (storage_open name s) = bucket_entry name key s.
Proof.
  unfold bucket_entry, storage_open.
  destruct (storage_lookup name s) eqn:E; [now rewrite E|].
  rewrite storage_lookup_app, E. simpl. rewrite String.eqb_refl.
  apply lookup_empty.
Qed.

(** What no bucket holds, the named bucket does not hold. *)
Lemma storage_match_None_entry (name key : string) (s : CacheStorage) :
  storage_match key s = None -> bucket_entry name key s = None.
Proof.
  unfold bucket_entry. induction s as [|[n c] s IH]; simpl; [reflexivity|].
  destruct (c !! key) eqn:E; [discriminate|].
  intros H. destruct (String.eqb n name); [exact E | exact (IH H)].
Qed.

Lemma keep_keys (name key : string) (s : CacheStorage) :
  In key (storage_keys (keep name s)) <->
  key = name /\ In name (storage_keys s).
Proof.
  unfold keep, storage_keys. rewrite !in_map_iff. split.
  - intros ([n c] & <- & H). apply filter_In in H as [H E]. simpl in *.
    apply String.eqb_eq in E. subst n. split; [reflexivity|].
    exists (name, c). split; [reflexivity | exact H].
  - intros (-> & [n c] & E & H). simpl in E. subst n.
    exists (name, c). split; [reflexivity|].
    apply filter_In. split; [exact H | simpl; apply String.eqb_refl].
Qed.

Lemma keep_lookup (name : string) (s : CacheStorage) :
  storage_lookup name (keep name s) = storage_lookup name s.
Proof.
  induction s as [|[n c] s IH]; simpl; [reflexivity|].
  destruct (String.eqb n name) eqn:E; simpl; [now rewrite E | exact IH].
Qed.

Lemma keep_lookup_other (name key : string) (s : CacheStorage) :
  key <> name -> storage_lookup key (keep name s) = None.
Proof.
  intros Hne. induction s as [|[n c] s IH]; simpl; [reflexivity|].
  destruct (String.eqb_spec n name) as [->|]; simpl; [|exact IH].
  destruct (String.eqb_spec name key); [congruence | exact IH].
Qed.

Lemma keep_match_None (name key : string) (s : CacheStorage) :
  storage_match key s = None -> storage_match key (keep name s) = None.
Proof.
  rewrite !storage_match_None. unfold keep. rewrite !List.Forall_forall.
  intros H p Hp. apply filter_In in Hp as [Hp _]. exact (H p Hp).
Qed.

Lemma lookup_In_keys (name : string) (s : CacheStorage) c :
  storage_lookup name s = Some c -> In name (storage_keys s).
Proof.
  induction s as [|[n c'] s IH]; simpl; [discriminate|].
  destruct (String.eqb_spec n name) as [->|]; [now left | right; auto].
Qed.

Lemma keys_In_lookup (name : string) (s : CacheStorage) :
  In name (storage_keys s) -> is_Some (storage_lookup name s).
Proof.
  induction s as [|[n c] s IH]; cbn; [contradiction|].
  destruct (String.eqb_spec n name) as [->|Hne]; [eauto|].
  intros [H|H]; [contradiction | auto].
Qed.

Lemma storage_put_keys (name key : string) d (s : CacheStorage) :
  storage_keys (storage_put name key d s) = storage_keys s.
Proof.
  unfold storage_keys.
  induction s as [|[n c] s IH]; cbn; [reflexivity|].
  destruct (String.eqb n name); cbn; [reflexivity | now rewrite IH].
Qed.

Lemma storage_put_entry (name key : string) d (s : CacheStorage) :
  In name (storage_keys s) ->
  bucket_entry name key (storage_put name key d s) = Some d.
Proof.
  intros H. destruct (keys_In_lookup _ _ H) as [c Hc].
  destruct (storage_lookup_split _ _ _ Hc) as (pre & post & -> & Hpre).
  unfold bucket_entry.
  rewrite storage_put_mid, storage_lookup_mid by exact Hpre.
  apply lookup_insert_eq.
Qed.

Lemma storage_open_keys (name : string) (s : CacheStorage) :
  In name (storage_keys (storage_open name s)).
Proof.
  destruct (storage_open_exists name s) as [c Hc].
  exact (lookup_In_keys _ _ _ Hc).
Qed.

(** The split at the first bucket of a name is unique. *)
Lemma storage_split_unique (name : string) (pre pre' post post' : CacheStorage)
      c c' :
  pre ++ (name, c) :: post = pre' ++ (name, c') :: post' ->
  storage_lookup name pre = None ->
  storage_lookup name pre' = None ->
  pre = pre' /\ c = c' /\ post = post'.
Proof.
  revert pre'. induction pre as [|[n b] pre IH]; intros [|[n' b'] pre'];
    cbn; intros E H H'.
  - now injection E as -> ->.
  - injection E as <- _ _. now rewrite String.eqb_refl in H'.
  - injection E as -> _ _. now rewrite String.eqb_refl in H.
  - injection E as -> -> E. destruct (String.eqb n' name); [discriminate|].
    destruct (IH pre' E H H') as (-> & -> & ->). auto.
Qed.

Lemma storage_match_mid_None (key name : string) (pre post : CacheStorage) c :
  storage_match key (pre ++ (name, c) :: post) = None <->
  storage_match key pre = None /\ c !! key = None /\
  storage_match key post = None.
Proof.
  rewrite storage_match_app. cbn.
  destruct (storage_match key pre); [intuition discriminate|].
  destruct (c !! key); [intuition discriminate|]. intuition.
Qed.

Lemma keep_absent (name : string) (s : CacheStorage) :
  ~ In name (storage_keys s) -> keep name s = [].
Proof.
  unfold storage_keys, keep.
  induction s as [|[n b] s IH]; cbn; [reflexivity|].
  intros H. destruct (String.eqb_spec n name) as [->|]; [tauto|].
  apply IH. tauto.
Qed.

(** A storage without repeated names, swept of all names but one, is that
    bucket alone. *)
Lemma keep_NoDup (name : string) (s : CacheStorage) c :
  List.NoDup (storage_keys s) -> storage_lookup name s = Some c ->
  keep name s = [(name, c)].
Proof.
  unfold storage_keys.
  induction s as [|[n b] s IH]; cbn; [discriminate|].
  intros Hnd. apply List.NoDup_cons_iff in Hnd as [Hn Hnd].
  destruct (String.eqb_spec n name) as [->|Hne].
  - intros [= ->]. f_equal. now apply keep_absent.
  - intros H. now apply IH.
Qed.

Lemma storage_open_NoDup (name : string) (s : CacheStorage) :
  List.NoDup (storage_keys s) -> List.NoDup (storage_keys (storage_open name s)).
Proof.
  intros Hnd. unfold storage_open.
  destruct (storage_lookup name s) eqn:E; [exact Hnd|].
  unfold storage_keys in *. rewrite map_app. cbn.
  apply List.NoDup_app; [exact Hnd | repeat constructor; auto |].
  intros a Ha [<-|[]].
  destruct (keys_In_lookup _ _ Ha) as [c Hc]. congruence.
Qed.

End StorageFacts.

(** ** The worker *)

Module WorkerFacts.
Import Host ServiceWorker StorageFacts.

(** Unfolding one layer of the monad. *)
Ltac run :=
  cbv [exec result mbind M_bind mret M_ret gets modify emit throw try_catch
       console_log console_warn skipWaiting clients_claim spawn
       caches_keys caches_delete caches_open cache_store new_response
       set_caches set_heap set_pending set_trace];
  cbn [fst snd caches heap pending trace].

Lemma bind_Ok {A B : Type} (m : M A) (f : A -> M B) (w w1 : World) (a : A) :
  m w = (Ok a, w1) -> (m ≫= f) w = f a w1.
Proof. intros H. unfold mbind, M_bind. now rewrite H. Qed.

Lemma bind_Throw {A B : Type} (m : M A) (f : A -> M B) (w w1 : World) err :
  m w = (Throw err, w1) -> (m ≫= f) w = (Throw err, w1).
Proof. intros H. unfold mbind, M_bind. now rewrite H. Qed.

Lemma net_calls_app (t1 t2 : list Event) :
  net_calls (t1 ++ t2) = net_calls t1 + net_calls t2.
Proof. unfold net_calls. now rewrite List.filter_app, List.length_app. Qed.

(** *** activate *)

Lemma filter_filter {A : Type} (f g : A -> bool) (l : list A) :
  List.filter f (List.filter g l) = List.filter (fun x => g x && f x) l.
Proof.
  induction l as [|x l IH]; simpl; [reflexivity|].
  destruct (g x); simpl; [destruct (f x)|]; now rewrite IH.
Qed.

Lemma filter_all {A : Type} (l : list A) : List.filter (fun _ => true) l = l.
Proof. induction l; simpl; congruence. Qed.

Lemma sweep_filter (keys : list string) (s : CacheStorage) :
  sweep keys s =
  List.filter
    (fun p => negb (existsb
       (fun key => negb (String.eqb key CACHE_NAME) && String.eqb (fst p) key)
       keys)) s.
Proof.
  revert s. induction keys as [|k keys IH]; intros s; simpl.
  - symmetry. apply filter_all.
  - unfold sweep in *. simpl. rewrite IH.
    destruct (String.eqb k CACHE_NAME); simpl; [reflexivity|].
    unfold storage_delete. rewrite filter_filter.
    apply filter_ext. intros p. now rewrite negb_orb.
Qed.

Lemma sweep_own_keys (s : CacheStorage) :
  sweep (storage_keys s) s = keep CACHE_NAME s.
Proof.
  rewrite sweep_filter. unfold keep. apply filter_ext_in.
  intros [n c] Hin. simpl.
  destruct (String.eqb_spec n CACHE_NAME) as [->|Hne].
  - apply negb_true_iff, not_true_is_false. intros H.
    apply existsb_exists in H as (k & _ & H).
    apply andb_true_iff in H as [H1 H2].
    apply String.eqb_eq in H2. subst k.
    now rewrite String.eqb_refl in H1.
  - apply negb_false_iff, existsb_exists. exists n. split.
    + unfold storage_keys. apply in_map_iff. now exists (n, c).
    + rewrite String.eqb_refl, andb_true_r. apply negb_true_iff.
      now apply String.eqb_neq.
Qed.

Lemma promise_all_deletions (keys : list string) (w : World) :
  exists vs w',
    promise_all
      (map (fun key =>
              if String.eqb key CACHE_NAME then mret None
              else deleted ← caches_delete key; mret (Some deleted))
           keys) w
    = (Ok vs, w') /\
    caches w' = sweep keys (caches w) /\
    heap w' = heap w /\ pending w' = pending w /\
    net_calls (trace w') = net_calls (trace w).
Proof.
  revert w. induction keys as [|k keys IH]; intros w; cbn [map promise_all].
  - exists [], w. repeat split; reflexivity.
  - destruct (String.eqb k CACHE_NAME) eqn:E.
    + destruct (IH w) as (vs & w' & Hrun & Hc & Hh & Hp & Hn).
      exists (None :: vs), w'.
      split; [|unfold sweep in *; cbn [fold_left]; rewrite E; auto].
      erewrite bind_Ok by reflexivity.
      erewrite bind_Ok by exact Hrun. reflexivity.
    + destruct (IH (exec (caches_delete k) w))
        as (vs & w' & Hrun & Hc & Hh & Hp & Hn).
      eexists (Some _ :: vs), w'. split.
      * erewrite bind_Ok by reflexivity.
        erewrite bind_Ok by exact Hrun. reflexivity.
      * rewrite Hc, Hh, Hp, Hn. unfold sweep. cbn [fold_left]. rewrite E.
        repeat split; try reflexivity.
        run. rewrite net_calls_app. cbn. lia.
Qed.

Lemma onActivate_run (w : World) :
  exists w',
    onActivate w = (Ok tt, w') /\
    caches w' = keep CACHE_NAME (caches w) /\
    heap w' = heap w /\ pending w' = pending w /\
    net_calls (trace w') = net_calls (trace w).
Proof.
  destruct (promise_all_deletions (storage_keys (caches w)) (exec caches_keys w))
    as (vs & w' & Hrun & Hc & Hh & Hp & Hn).
  eexists. split.
  - unfold onActivate.
    erewrite bind_Ok; [reflexivity|].
    erewrite bind_Ok by reflexivity. exact Hrun.
  - run. rewrite Hc, Hh, Hp. run. rewrite sweep_own_keys.
    repeat split; try reflexivity.
    rewrite net_calls_app, Hn. run. rewrite net_calls_app. cbn. lia.
Qed.

Section Install.

Variable origin : string.
Variable network : string -> option ResponseData.
Variable PRECACHE_ASSETS : list string.

Local Abbreviation absolute := (absolute origin).
Local Abbreviation onInstall := (onInstall origin network PRECACHE_ASSETS).

Local Abbreviation fetched := (fetched network).
Local Abbreviation precache_one := (precache_one origin network).
Local Abbreviation precache_bucket := (precache_bucket origin network).
Local Abbreviation precache_body := (precache_body origin network).

Lemma precache_body_run (asset : string) (w : World) pre c post :
  caches w = pre ++ (CACHE_NAME, c) :: post ->
  storage_lookup CACHE_NAME pre = None ->
  exists w' evs,
    precache_body CACHE_NAME asset w = (Ok tt, w') /\
    caches w' = pre ++ (CACHE_NAME, precache_one c asset) :: post /\
    heap w' = heap w /\ pending w' = pending w /\
    trace w' = trace w ++ evs /\
    (fetched (absolute asset) = None -> warned asset evs).
Proof.
  intros Hc Hpre.
  unfold precache_body, cache_add, net_fetch, precache_one, fetched. run.
  destruct (network (absolute asset)) as [d|]; [destruct (ok d)|]; run.
  - eexists _, [_; _; _]. split; [reflexivity|]. cbn.
    rewrite Hc, storage_put_mid by exact Hpre.
    repeat split; [now rewrite <- !app_assoc | discriminate].
  - eexists _, [_; _]. split; [reflexivity|]. cbn.
    repeat split; [exact Hc | now rewrite <- !app_assoc |].
    intros _. eexists. right. left. reflexivity.
  - eexists _, [_; _]. split; [reflexivity|]. cbn.
    repeat split; [exact Hc | now rewrite <- !app_assoc |].
    intros _. eexists. right. left. reflexivity.
Qed.

Lemma precache_loop_run (assets : list string) (w : World) pre c post :
  caches w = pre ++ (CACHE_NAME, c) :: post ->
  storage_lookup CACHE_NAME pre = None ->
  exists w' evs,
    for_of assets (precache_body CACHE_NAME) w = (Ok tt, w') /\
    caches w' = pre ++ (CACHE_NAME, precache_bucket assets c) :: post /\
    heap w' = heap w /\ pending w' = pending w /\
    trace w' = trace w ++ evs /\
    Forall (fun asset => fetched (absolute asset) = None -> warned asset evs)
           assets.
Proof.
  revert w c. induction assets as [|a assets IH]; intros w c Hc Hpre.
  - exists w, []. cbn. rewrite app_nil_r. repeat split; auto.
  - destruct (precache_body_run a w pre c post Hc Hpre)
      as (w1 & evs1 & Hrun1 & Hc1 & Hh1 & Hp1 & Ht1 & Hw1).
    destruct (IH w1 _ Hc1 Hpre)
      as (w' & evs & Hrun & Hc' & Hh & Hp & Ht & Hw).
    exists w', (evs1 ++ evs). cbn [for_of].
    erewrite bind_Ok by exact Hrun1. split; [exact Hrun|].
    rewrite Hc', Hh, Hp, Ht, Hh1, Hp1, Ht1, app_assoc.
    repeat split. constructor.
    + intros Hnone. destruct (Hw1 Hnone) as [err Herr].
      exists err. apply in_or_app. now left.
    + eapply List.Forall_impl; [|exact Hw]. cbn.
      intros a' Ha' Hnone. destruct (Ha' Hnone) as [err Herr].
      exists err. apply in_or_app. now right.
Qed.

Lemma onInstall_run (w : World) :
  exists w' pre c post evs,
    onInstall w = (Ok tt, w') /\
    storage_open CACHE_NAME (caches w) = pre ++ (CACHE_NAME, c) :: post /\
    storage_lookup CACHE_NAME pre = None /\
    caches w' = pre ++ (CACHE_NAME, precache_bucket PRECACHE_ASSETS c) :: post /\
    heap w' = heap w /\ pending w' = pending w /\
    trace w' = trace w ++ evs /\
    Forall (fun asset => fetched (absolute asset) = None -> warned asset evs)
           PRECACHE_ASSETS.
Proof.
  destruct (storage_open_exists CACHE_NAME (caches w)) as [c Hc].
  destruct (storage_lookup_split _ _ _ Hc) as (pre & post & Hs & Hpre).
  destruct (precache_loop_run PRECACHE_ASSETS
              (exec (caches_open CACHE_NAME) w) pre c post Hs Hpre)
    as (w1 & evs & Hrun & Hc1 & Hh & Hp & Ht & Hw).
  eexists _, pre, c, post, ([CacheOpen CACHE_NAME] ++ evs ++ [SkipWaiting]).
  split; [|split; [exact Hs | split; [exact Hpre|]]].
  - unfold ServiceWorker.onInstall.
    erewrite bind_Ok; [reflexivity|].
    erewrite bind_Ok by reflexivity. exact Hrun.
  - run. rewrite Hc1, Hh, Hp, Ht. run.
    repeat split; [now rewrite <- !app_assoc|].
    eapply List.Forall_impl; [|exact Hw]. cbn.
    intros a Ha Hnone. destruct (Ha Hnone) as [err Herr].
    exists err. right. apply in_or_app. now left.
Qed.

(** The bucket after the loop, entry by entry. *)
Lemma precache_bucket_lookup (assets : list string) c (key : string) :
  precache_bucket assets c !! key =
  if existsb (fun asset => String.eqb (absolute asset) key) assets
  then match fetched key with
       | Some d => Some d
       | None => c !! key
       end
  else c !! key.
Proof.
  revert c. induction assets as [|a assets IH]; intros c; cbn; [reflexivity|].
  unfold precache_bucket in *. rewrite IH. unfold precache_one.
  destruct (String.eqb_spec (absolute a) key) as [->|Hne]; cbn.
  - destruct (fetched key) as [d|] eqn:E.
    + rewrite lookup_insert_eq. now destruct (existsb _ _).
    + now destruct (existsb _ _).
  - destruct (fetched (absolute a)) as [d|]; [|reflexivity].
    now rewrite lookup_insert_ne.
Qed.

Lemma precache_bucket_idem (assets : list string) c :
  precache_bucket assets (precache_bucket assets c) = precache_bucket assets c.
Proof.
  apply map_eq. intros key. rewrite !precache_bucket_lookup.
  destruct (existsb _ _); [|reflexivity].
  now destruct (fetched key).
Qed.

(** Install leaves the current bucket in place, with every asset that could
    be fetched. *)
Lemma onInstall_bucket (w : World) :
  exists c,
    storage_lookup CACHE_NAME (caches (exec onInstall w)) = Some c /\
    forall asset, In asset PRECACHE_ASSETS ->
      c !! absolute asset =
      match fetched (absolute asset) with
      | Some d => Some d
      | None => bucket_entry CACHE_NAME (absolute asset) (caches w)
      end.
Proof.
  destruct (onInstall_run w)
    as (w' & pre & c & post & evs & Hrun & Hs & Hpre & Hc & _).
  unfold exec. rewrite Hrun. cbn [snd]. rewrite Hc.
  eexists. split; [now apply storage_lookup_mid|].
  intros asset Hin. rewrite precache_bucket_lookup.
  replace (existsb _ _) with true.
  - rewrite <- (bucket_entry_open CACHE_NAME _ (caches w)), Hs.
    unfold bucket_entry. now rewrite storage_lookup_mid.
  - symmetry. apply existsb_exists. exists asset.
    split; [exact Hin | apply String.eqb_refl].
Qed.

(** A request that no bucket holds and that is not on the precache list is
    still held by no bucket after install. *)
Lemma onInstall_match_None (key : string) (w : World) :
  storage_match key (caches w) = None ->
  existsb (fun asset => String.eqb (absolute asset) key) PRECACHE_ASSETS = false ->
  storage_match key (caches (exec onInstall w)) = None.
Proof.
  intros Hnone Hlist.
  destruct (onInstall_run w)
    as (w' & pre & c & post & evs & Hrun & Hs & Hpre & Hc & _).
  unfold exec. rewrite Hrun. cbn [snd]. rewrite Hc.
  rewrite <- (storage_match_open CACHE_NAME), Hs in Hnone.
  apply storage_match_mid_None in Hnone as (H1 & H2 & H3).
  apply storage_match_mid_None. repeat split; try assumption.
  now rewrite precache_bucket_lookup, Hlist.
Qed.

(** Install creates no bucket but the current one. *)
Lemma onInstall_keys (w : World) :
  storage_keys (caches (exec onInstall w))
  = storage_keys (storage_open CACHE_NAME (caches w)).
Proof.
  destruct (onInstall_run w)
    as (w' & pre & c & post & evs & Hrun & Hs & Hpre & Hc & _).
  unfold exec. rewrite Hrun. cbn [snd]. rewrite Hc, Hs.
  unfold storage_keys. now rewrite !map_app.
Qed.

End Install.

(** *** fetch *)

Section Fetch.

Variable origin : string.
Variable network : string -> option ResponseData.

Local Abbreviation absolute := (absolute origin).
Local Abbreviation onFetch := (onFetch origin network).

Ltac run_fetch :=
  cbv [respondWith fetch net_fetch caches_match clone read_body cache_put];
  run.

Lemma only_current_match (key : string) (s : CacheStorage) :
  only_current s -> storage_match key s = bucket_entry CACHE_NAME key s.
Proof.
  intros [c ->]. unfold bucket_entry. cbn [storage_match storage_lookup].
  rewrite String.eqb_refl. now destruct (c !! key).
Qed.

Lemma bucket_entry_match (name key : string) (s : CacheStorage) d :
  bucket_entry name key s = Some d -> is_Some (storage_match key s).
Proof.
  intros H. destruct (storage_match key s) eqn:E; [eauto|].
  apply (storage_match_None_entry name) in E. congruence.
Qed.

Lemma mode_not_navigate (req : Request) :
  mode req <> "navigate" -> String.eqb (mode req) "navigate" = false.
Proof. intros H. now apply String.eqb_neq. Qed.

(** Cache first: a hit is answered from the storage alone. *)
Lemma onFetch_hit (req : Request) (w : World) d :
  String.prefix "http" (url req) = true ->
  mode req <> "navigate" ->
  storage_match (url req) (caches w) = Some d ->
  onFetch req w =
  (RespondWith (length (heap w)),
   {| caches := caches w;
      heap := heap w ++ [{| content := d; bodyUsed := false |}];
      pending := pending w;
      trace := trace w ++ [CacheMatch (url req)] |}).
Proof.
  intros Hhttp Hmode Hmatch. unfold ServiceWorker.onFetch.
  rewrite Hhttp, (mode_not_navigate _ Hmode). cbn [negb].
  run_fetch. rewrite Hmatch. reflexivity.
Qed.

(** Cache miss, network failure: nothing comes back. *)
Lemma onFetch_miss_offline (req : Request) (w : World) :
  String.prefix "http" (url req) = true ->
  mode req <> "navigate" ->
  storage_match (url req) (caches w) = None ->
  network (url req) = None ->
  onFetch req w =
  (NetworkError,
   {| caches := caches w; heap := heap w; pending := pending w;
      trace := trace w ++ [CacheMatch (url req)] ++ [NetFetch (url req)] |}).
Proof.
  intros Hhttp Hmode Hmatch Hnet. unfold ServiceWorker.onFetch.
  rewrite Hhttp, (mode_not_navigate _ Hmode). cbn [negb].
  run_fetch. rewrite Hmatch. run_fetch. rewrite Hnet.
  now rewrite <- app_assoc.
Qed.

(** Cache miss, network success: the response goes back, a clone is queued
    for the bucket. *)
Lemma onFetch_miss_online (req : Request) (w : World) d :
  String.prefix "http" (url req) = true ->
  mode req <> "navigate" ->
  storage_match (url req) (caches w) = None ->
  network (url req) = Some d ->
  onFetch req w =
  (RespondWith (length (heap w)),
   {| caches := storage_open CACHE_NAME (caches w);
      heap := (heap w ++ [{| content := d; bodyUsed := false |}])
                ++ [{| content := d; bodyUsed := false |}];
      pending := pending w
                   ++ [TaskPut CACHE_NAME (url req) (S (length (heap w)))];
      trace := trace w ++ [CacheMatch (url req)] ++ [NetFetch (url req)]
                 ++ [CacheOpen CACHE_NAME] |}).
Proof.
  intros Hhttp Hmode Hmatch Hnet. unfold ServiceWorker.onFetch.
  rewrite Hhttp, (mode_not_navigate _ Hmode). cbn [negb].
  run_fetch. rewrite Hmatch. run_fetch. rewrite Hnet. run_fetch.
  rewrite lookup_app_r, Nat.sub_diag by lia. cbn.
  rewrite length_app, Nat.add_1_r, <- !app_assoc. reflexivity.
Qed.

(** Network first for navigations: a response from the network goes back as
    it is, and nothing is stored. *)
Lemma onFetch_navigate_online (req : Request) (w : World) d :
  String.prefix "http" (url req) = true ->
  mode req = "navigate" ->
  network (url req) = Some d ->
  onFetch req w =
  (RespondWith (length (heap w)),
   {| caches := caches w;
      heap := heap w ++ [{| content := d; bodyUsed := false |}];
      pending := pending w;
      trace := trace w ++ [NetFetch (url req)] |}).
Proof.
  intros Hhttp Hmode Hnet. unfold ServiceWorker.onFetch.
  rewrite Hhttp, Hmode. cbn [negb String.eqb Ascii.eqb Bool.eqb].
  run_fetch. rewrite Hnet. reflexivity.
Qed.

(** The navigation whose network fetch fails: the storage, then the offline
    page, then nothing. *)
Lemma onFetch_navigate_offline (req : Request) (w : World) :
  String.prefix "http" (url req) = true ->
  mode req = "navigate" ->
  network (url req) = None ->
  onFetch req w =
  match storage_match (url req) (caches w) with
  | Some d =>
      (RespondWith (length (heap w)),
       {| caches := caches w;
          heap := heap w ++ [{| content := d; bodyUsed := false |}];
          pending := pending w;
          trace := trace w ++ [NetFetch (url req)] ++ [CacheMatch (url req)] |})
  | None =>
      match storage_match (absolute "/offline.html") (caches w) with
      | Some d =>
          (RespondWith (length (heap w)),
           {| caches := caches w;
              heap := heap w ++ [{| content := d; bodyUsed := false |}];
              pending := pending w;
              trace := trace w ++ [NetFetch (url req)]
                         ++ [CacheMatch (url req)]
                         ++ [CacheMatch (absolute "/offline.html")] |})
      | None =>
          (NetworkError,
           {| caches := caches w; heap := heap w; pending := pending w;
              trace := trace w ++ [NetFetch (url req)]
                         ++ [CacheMatch (url req)]
                         ++ [CacheMatch (absolute "/offline.html")] |})
      end
  end.
Proof.
  intros Hhttp Hmode Hnet. unfold ServiceWorker.onFetch.
  rewrite Hhttp, Hmode. cbn [negb String.eqb Ascii.eqb Bool.eqb].
  run_fetch. rewrite Hnet. run_fetch.
  destruct (storage_match (url req) (caches w)) as [d|].
  - now rewrite <- app_assoc.
  - run_fetch.
    destruct (storage_match (absolute "/offline.html") (caches w)) as [d|];
      now rewrite <- !app_assoc.
Qed.

End Fetch.

(** *** Queued work *)

Lemma tasks_bound_mono (ts : list Task) (n m : nat) :
  n <= m ->
  forallb (fun t => match t with TaskPut _ _ r => Nat.ltb r n end) ts = true ->
  forallb (fun t => match t with TaskPut _ _ r => Nat.ltb r m end) ts = true.
Proof.
  intros Hnm. rewrite !forallb_forall. intros H [name key r] Hin.
  specialize (H _ Hin). cbn in H. apply Nat.ltb_lt in H. apply Nat.ltb_lt. lia.
Qed.

(** In a world that started with nothing queued, what is queued refers to
    objects of the heap: no handler breaks this. *)
Lemma tasks_wf_fresh : tasks_wf fresh_world.
Proof. reflexivity. Qed.

Lemma onFetch_tasks_wf
    (origin : string) (network : string -> option ResponseData)
    (req : Request) (w : World) :
  tasks_wf w -> tasks_wf (snd (onFetch origin network req w)).
Proof.
  unfold tasks_wf. intros Hwf.
  destruct (String.prefix "http" (url req)) eqn:Hhttp.
  - destruct (String.eqb_spec (mode req) "navigate") as [Hmode|Hmode].
    + destruct (network (url req)) as [d|] eqn:Hnet.
      * rewrite (onFetch_navigate_online _ _ _ _ d) by assumption.
        cbn [snd heap pending].
        eapply tasks_bound_mono; [|exact Hwf]. rewrite length_app. lia.
      * rewrite onFetch_navigate_offline by assumption.
        destruct (storage_match (url req) (caches w));
          [|destruct (storage_match _ (caches w))];
          cbn [snd heap pending]; try exact Hwf;
          (eapply tasks_bound_mono; [|exact Hwf]); rewrite length_app; lia.
    + destruct (storage_match (url req) (caches w)) as [d|] eqn:Hmatch.
      * rewrite (onFetch_hit _ _ _ _ d) by assumption.
        cbn [snd heap pending].
        eapply tasks_bound_mono; [|exact Hwf]. rewrite length_app. lia.
      * destruct (network (url req)) as [d|] eqn:Hnet.
        -- rewrite (onFetch_miss_online _ _ _ _ d) by assumption.
           cbn [snd heap pending]. rewrite forallb_app. apply andb_true_iff.
           split.
           ++ eapply tasks_bound_mono; [|exact Hwf]. rewrite !length_app. lia.
           ++ cbn [forallb]. rewrite andb_true_r. apply Nat.ltb_lt.
              rewrite !length_app. cbn. lia.
        -- rewrite onFetch_miss_offline by assumption. exact Hwf.
  - unfold onFetch. rewrite Hhttp. exact Hwf.
Qed.

Lemma run_tasks_app (ts1 ts2 : list Task) (w : World) :
  run_tasks (ts1 ++ ts2) w = run_tasks ts2 (run_tasks ts1 w).
Proof. revert w. induction ts1 as [|t ts1 IH]; intros w; cbn; auto. Qed.

(** A queued put touches the object it reads and the entry it writes, and no
    other object, and no bucket is created or removed. *)
Lemma run_task_frame (t : Task) (w : World) (n : nat) :
  match t with TaskPut _ _ r => r < n end ->
  length (heap (exec (run_task t) w)) = length (heap w) /\
  (forall i, n <= i -> heap (exec (run_task t) w) !! i = heap w !! i) /\
  storage_keys (caches (exec (run_task t) w)) = storage_keys (caches w) /\
  pending (exec (run_task t) w) = pending w.
Proof.
  destruct t as [name key r]. intros Hr.
  unfold run_task, cache_put, read_body. run.
  destruct (heap w !! r) as [o|] eqn:Ho; run; auto.
  destruct (storable (content o)); run; auto.
  rewrite Ho. destruct (bodyUsed o); run; auto.
  rewrite length_insert, storage_put_keys. repeat split.
  intros i Hi. apply list_lookup_insert_ne. lia.
Qed.

Lemma run_tasks_frame (ts : list Task) (w : World) (n : nat) :
  Forall (fun t => match t with TaskPut _ _ r => r < n end) ts ->
  length (heap (run_tasks ts w)) = length (heap w) /\
  (forall i, n <= i -> heap (run_tasks ts w) !! i = heap w !! i) /\
  storage_keys (caches (run_tasks ts w)) = storage_keys (caches w) /\
  pending (run_tasks ts w) = pending w.
Proof.
  revert w. induction ts as [|t ts IH]; intros w Hts; cbn; [auto|].
  apply List.Forall_cons_iff in Hts as [Ht Hts].
  destruct (run_task_frame t w n Ht) as (Hl & Hh & Hk & Hp).
  destruct (IH (exec (run_task t) w) Hts) as (Hl' & Hh' & Hk' & Hp').
  rewrite Hl', Hk', Hp', Hl, Hk, Hp. repeat split.
  intros i Hi. now rewrite Hh', Hh.
Qed.

(** The put itself, on an unread response that the cache accepts and an
    existing bucket. *)
Lemma run_put (name key : string) (r : ref) (w : World) d :
  heap w !! r = Some {| content := d; bodyUsed := false |} ->
  storable d = true ->
  In name (storage_keys (caches w)) ->
  bucket_entry name key (caches (exec (run_task (TaskPut name key r)) w))
    = Some d /\
  heap (exec (run_task (TaskPut name key r)) w)
    = <[r := {| content := d; bodyUsed := true |}]> (heap w) /\
  pending (exec (run_task (TaskPut name key r)) w) = pending w.
Proof.
  intros Hr Hd Hname. unfold run_task, cache_put, read_body. run.
  rewrite Hr. cbn [content]. rewrite Hd. run. rewrite Hr. run.
  split; [now apply storage_put_entry | split; reflexivity].
Qed.

(** The put of a response that the cache does not accept: it is refused,
    nothing is stored and the body is not read. *)
Lemma run_put_refused (name key : string) (r : ref) (w : World) d :
  heap w !! r = Some {| content := d; bodyUsed := false |} ->
  storable d = false ->
  exec (run_task (TaskPut name key r)) w = w.
Proof.
  intros Hr Hd. unfold run_task, cache_put. run. rewrite Hr. cbn [content].
  now rewrite Hd.
Qed.

(** *** URL schemes *)

Lemma prefix_scheme (p u : string) :
  Forall (fun c => c <> ":"%char) (list_ascii_of_string p) ->
  String.prefix p (scheme u) = String.prefix p u.
Proof.
  revert u. induction p as [|a p IH]; intros u Hp.
  - transitivity true; [|symmetry]; [now destruct (scheme u) | now destruct u].
  - cbn in Hp. apply List.Forall_cons_iff in Hp as [Ha Hp].
    destruct u as [|b u]; cbn; [reflexivity|].
    destruct (Ascii.eqb_spec b ":") as [->|Hb]; cbn.
    + destruct (ascii_dec a ":"); [contradiction | reflexivity].
    + destruct (ascii_dec a b); [now apply IH | reflexivity].
Qed.

Lemma prefix_http_scheme (u : string) :
  String.prefix "http" (scheme u) = String.prefix "http" u.
Proof.
  apply prefix_scheme. repeat constructor; discriminate.
Qed.

(** Every HTTP or HTTPS URL passes the guard of the fetch handler. *)
Lemma http_scheme_handled (u : string) :
  scheme u = "http" \/ scheme u = "https" -> String.prefix "http" u = true.
Proof.
  intros H. rewrite <- prefix_http_scheme. now destruct H as [-> | ->].
Qed.



Lemma append_inj_l (p a b : string) : p +:+ a = p +:+ b -> a = b.
Proof.
  induction p as [|c p IH]; cbn; [auto|]. intros [= H]. auto.
Qed.

(** Two paths resolve to the same URL only when they are the same path. *)
Lemma existsb_absolute (origin path : string) (assets : list string) :
  existsb (fun asset => String.eqb (absolute origin asset) (absolute origin path))
          assets
  = existsb (fun asset => String.eqb asset path) assets.
Proof.
  induction assets as [|a assets IH]; cbn; [reflexivity|].
  rewrite IH. f_equal.
  destruct (String.eqb_spec a path) as [->|Hne]; [apply String.eqb_refl|].
  apply String.eqb_neq. intros H. now apply append_inj_l in H.
Qed.


End WorkerFacts.

(** ** The properties of the worker *)

Module WorkerSpec.
Import Host ServiceWorker Samples StorageFacts WorkerFacts.

(** *** Activation *)

(** C1.  After the activate handler completes, the set of bucket tags is
    exactly the singleton of the current tag [CACHE_NAME], whatever stale
    buckets (none, one, many) stood beside the current one: the handler
    completes, the current bucket is kept with its content, every other
    bucket is gone; the storage, when its names were distinct, is the current
    bucket alone. *)
Theorem activate_leaves_only_current_bucket
    (w : World) (c : gmap string ResponseData) :
  storage_lookup CACHE_NAME (caches w) = Some c ->
  result onActivate w = Ok tt /\
  (list_to_set (storage_keys (caches (exec onActivate w))) : gset string)
    = {[ CACHE_NAME ]} /\
  storage_lookup CACHE_NAME (caches (exec onActivate w)) = Some c /\
  (forall key, key <> CACHE_NAME ->
     storage_lookup key (caches (exec onActivate w)) = None) /\
  (List.NoDup (storage_keys (caches w)) ->
     caches (exec onActivate w) = [(CACHE_NAME, c)]).
Proof.
  intros Hcur. destruct (onActivate_run w) as (w' & Hrun & Hc & _).
  unfold result, exec. rewrite Hrun. cbn [fst snd]. rewrite Hc.
  split; [reflexivity|]. split; [|split; [|split]].
  - apply set_eq. intros key.
    rewrite elem_of_list_to_set, elem_of_singleton, list_elem_of_In, keep_keys.
    split; [tauto|]. intros ->. split; [reflexivity|].
    exact (lookup_In_keys _ _ _ Hcur).
  - now rewrite keep_lookup.
  - intros key Hkey. now apply keep_lookup_other.
  - intros Hnd. now apply keep_NoDup.
Qed.

Lemma activate_leaves_only_current_bucket_witness :
  storage_lookup CACHE_NAME (caches stale_and_current)
    = Some {[ "https://busting-bias.test/" :=
                {| status := 200; body := "new page"; vary := [] |} ]} /\
  caches (exec onActivate stale_and_current)
    = [ (CACHE_NAME, {[ "https://busting-bias.test/" :=
                          {| status := 200; body := "new page"; vary := [] |} ]}) ].
Proof.
  split; [reflexivity|].
  apply (activate_leaves_only_current_bucket stale_and_current).
  - reflexivity.
  - repeat constructor; cbn; intuition discriminate.
Defined.

(** *** Installation *)

Lemma tasks_wf_Forall (w : World) :
  tasks_wf w ->
  Forall (fun t => match t with TaskPut _ _ r => r < length (heap w) end)
         (pending w).
Proof.
  unfold tasks_wf. rewrite forallb_forall, List.Forall_forall.
  intros H [name key r] Hin. apply Nat.ltb_lt. exact (H _ Hin).
Qed.



(** C6.  Installing a second time, with the same precache list, over the
    bucket that the first installation filled, completes without error and
    leaves the cache storage as the first installation left it: an entry is
    written over the entry of the same request. *)
Theorem install_twice_same_bucket
    (origin : string) (network : string -> option ResponseData)
    (assets : list string) (w : World) :
  let once := exec (onInstall origin network assets) w in
  let twice := exec (onInstall origin network assets) once in
  result (onInstall origin network assets) w = Ok tt /\
  result (onInstall origin network assets) once = Ok tt /\
  caches twice = caches once.
Proof.
  intros once twice. subst twice once.
  destruct (onInstall_run origin network assets w)
    as (w1 & pre & c & post & evs & Hrun & Hs & Hpre & Hc & _).
  unfold result, exec. rewrite Hrun. cbn [fst snd].
  destruct (onInstall_run origin network assets w1)
    as (w2 & pre' & c' & post' & evs' & Hrun' & Hs' & Hpre' & Hc' & _).
  rewrite Hrun'. cbn [fst snd]. split; [reflexivity|]. split; [reflexivity|].
  rewrite Hc', Hc.
  rewrite Hc in Hs'.
  erewrite storage_open_idem in Hs' by (now apply storage_lookup_mid).
  destruct (storage_split_unique _ _ _ _ _ _ _ Hs' Hpre Hpre')
    as (<- & <- & <-).
  now rewrite precache_bucket_idem.
Qed.

(** *** Interception *)

Lemma eqb_navigate_false (req : Request) :
  String.eqb (mode req) "navigate" = false -> mode req <> "navigate".
Proof. intros H. now apply String.eqb_neq. Qed.

(** C3.  A request that is not a navigation, whose URL passes the guard (as
    every HTTP or HTTPS URL does, [http_scheme_handled]) and which the bucket
    holds is answered from the cache storage: the handler responds with a
    cached response (the entry of the bucket when the storage is the current
    bucket alone), the number of network calls is what it was, and the only
    thing done is the one lookup. *)
Theorem cache_hit_makes_no_network_call
    (origin : string) (network : string -> option ResponseData)
    (req : Request) (w : World) (d : ResponseData) :
  String.prefix "http" (url req) = true ->
  String.eqb (mode req) "navigate" = false ->
  bucket_entry CACHE_NAME (url req) (caches w) = Some d ->
  exists r w' d',
    onFetch origin network req w = (RespondWith r, w') /\
    storage_match (url req) (caches w) = Some d' /\
    (only_current (caches w) -> d' = d) /\
    heap w' !! r = Some {| content := d'; bodyUsed := false |} /\
    net_calls (trace w') = net_calls (trace w) /\
    trace w' = trace w ++ [CacheMatch (url req)] /\
    caches w' = caches w /\ pending w' = pending w.
Proof.
  intros Hhttp Hmode Hentry. apply eqb_navigate_false in Hmode.
  destruct (bucket_entry_match _ _ _ _ Hentry) as [d' Hmatch].
  eexists _, _, d'. split; [apply onFetch_hit; eassumption|].
  cbn [caches heap pending trace]. split; [exact Hmatch|]. split.
  - intros Honly. rewrite only_current_match in Hmatch by exact Honly.
    congruence.
  - rewrite lookup_app_r, Nat.sub_diag, net_calls_app by lia.
    cbn. repeat split. lia.
Qed.

Lemma cache_hit_makes_no_network_call_witness :
  let req := {| url := "https://busting-bias.test/style.css"; mode := "no-cors" |} in
  (String.prefix "http" (url req) = true /\
   String.eqb (mode req) "navigate" = false /\
   bucket_entry CACHE_NAME (url req) (caches activated_world) = Some stylesheet) /\
  exists r w',
    onFetch "https://busting-bias.test" offline req activated_world
      = (RespondWith r, w') /\
    net_calls (trace w') = net_calls (trace activated_world).
Proof.
  split; [repeat split|].
  destruct (cache_hit_makes_no_network_call
              "https://busting-bias.test" offline
              {| url := "https://busting-bias.test/style.css"; mode := "no-cors" |}
              activated_world stylesheet)
    as (r & w' & d' & Hrun & _ & _ & _ & Hn & _);
    [reflexivity | reflexivity | reflexivity |].
  exists r, w'. split; [exact Hrun | exact Hn].
Defined.

(** C7.  A request that is not a navigation, whose URL passes the guard, which
    no bucket holds (after activation: which the bucket does not hold,
    [only_current_match]) and whose network fetch fails gets no response: the
    page sees a failed load.  Nothing is stored and nothing is queued. *)
Theorem cache_miss_offline_gives_no_response
    (origin : string) (network : string -> option ResponseData)
    (req : Request) (w : World) :
  String.prefix "http" (url req) = true ->
  String.eqb (mode req) "navigate" = false ->
  storage_match (url req) (caches w) = None ->
  network (url req) = None ->
  fst (onFetch origin network req w) = NetworkError /\
  caches (snd (onFetch origin network req w)) = caches w /\
  heap (snd (onFetch origin network req w)) = heap w /\
  pending (snd (onFetch origin network req w)) = pending w.
Proof.
  intros Hhttp Hmode Hmatch Hnet. apply eqb_navigate_false in Hmode.
  rewrite onFetch_miss_offline by assumption. repeat split.
Qed.

Lemma cache_miss_offline_gives_no_response_witness :
  let req := {| url := "https://busting-bias.test/icons/icon-192.png";
                mode := "no-cors" |} in
  (String.prefix "http" (url req) = true /\
   String.eqb (mode req) "navigate" = false /\
   storage_match (url req) (caches activated_world) = None /\
   offline (url req) = None) /\
  fst (onFetch "https://busting-bias.test" offline req activated_world)
    = NetworkError.
Proof.
  split; [repeat split|].
  apply (cache_miss_offline_gives_no_response
           "https://busting-bias.test" offline
           {| url := "https://busting-bias.test/icons/icon-192.png";
              mode := "no-cors" |} activated_world); reflexivity.
Defined.

(** C2, as the worker and the cache have it.  A request that is not a
    navigation, whose URL passes the guard, which no bucket holds and whose
    network fetch succeeds is answered with the network response, and a clone
    of it, a second object, is what is handed to [cache.put].  When the
    handler returns, the put is queued and not done; once the queued work has
    run, the body of the response given to the page is still unread, and,
    when the response is one that the cache accepts (not a partial response,
    no [Vary: *]), the bucket holds the request and the body of the clone has
    been read. *)
Theorem cache_miss_online_stores_a_clone
    (origin : string) (network : string -> option ResponseData)
    (req : Request) (w : World) (d : ResponseData) :
  String.prefix "http" (url req) = true ->
  String.eqb (mode req) "navigate" = false ->
  storage_match (url req) (caches w) = None ->
  network (url req) = Some d ->
  tasks_wf w ->
  exists fresh copy w',
    onFetch origin network req w = (RespondWith fresh, w') /\
    copy <> fresh /\
    heap w' !! fresh = Some {| content := d; bodyUsed := false |} /\
    heap w' !! copy = Some {| content := d; bodyUsed := false |} /\
    pending w' = pending w ++ [TaskPut CACHE_NAME (url req) copy] /\
    bucket_entry CACHE_NAME (url req) (caches w') = None /\
    heap (settle w') !! fresh = Some {| content := d; bodyUsed := false |} /\
    pending (settle w') = [] /\
    (storable d = true ->
     bucket_entry CACHE_NAME (url req) (caches (settle w')) = Some d /\
     heap (settle w') !! copy = Some {| content := d; bodyUsed := true |}).
Proof.
  intros Hhttp Hmode Hmatch Hnet Hwf. apply eqb_navigate_false in Hmode.
  set (o := {| content := d; bodyUsed := false |}).
  assert (Hfresh : ((heap w ++ [o]) ++ [o]) !! length (heap w) = Some o).
  { rewrite <- app_assoc. now apply list_lookup_middle. }
  assert (Hcopy : ((heap w ++ [o]) ++ [o]) !! S (length (heap w)) = Some o).
  { apply list_lookup_middle. rewrite length_app. cbn. lia. }
  eexists (length (heap w)), (S (length (heap w))), _.
  split; [apply onFetch_miss_online; eassumption|].
  cbn [caches heap pending trace]. fold o.
  split; [lia|]. split; [exact Hfresh|]. split; [exact Hcopy|].
  split; [reflexivity|]. split.
  { rewrite bucket_entry_open. now apply storage_match_None_entry. }
  unfold settle. cbn [pending]. rewrite run_tasks_app. cbn [run_tasks].
  match goal with |- context [run_tasks (pending w) ?v] => set (v0 := v) end.
  destruct (run_tasks_frame (pending w) v0 (length (heap w))
              (tasks_wf_Forall w Hwf)) as (_ & Hh & Hk & Hp).
  set (v1 := run_tasks (pending w) v0) in *.
  assert (Hfresh1 : heap v1 !! length (heap w) = Some o).
  { rewrite Hh by lia. exact Hfresh. }
  assert (Hcopy1 : heap v1 !! S (length (heap w)) = Some o).
  { rewrite Hh by lia. exact Hcopy. }
  destruct (storable d) eqn:Hd.
  - destruct (run_put CACHE_NAME (url req) (S (length (heap w))) v1 d Hcopy1 Hd)
      as (Hentry & Hheap & Hpend).
    { rewrite Hk. apply storage_open_keys. }
    rewrite Hentry, Hheap, Hpend, Hp.
    split; [|split; [reflexivity|]].
    + rewrite list_lookup_insert_ne by lia. exact Hfresh1.
    + intros _. split; [reflexivity|].
      apply list_lookup_insert_eq. now apply lookup_lt_Some in Hcopy1.
  - rewrite (run_put_refused CACHE_NAME (url req) _ v1 d Hcopy1 Hd).
    split; [exact Hfresh1|]. split; [exact Hp | discriminate].
Qed.

Lemma cache_miss_online_stores_a_clone_witness :
  let req := {| url := "https://busting-bias.test/game.js"; mode := "no-cors" |} in
  (String.prefix "http" (url req) = true /\
   String.eqb (mode req) "navigate" = false /\
   storage_match (url req) (caches activated_world) = None /\
   serves_game_js (url req) = Some game_script /\
   tasks_wf activated_world /\
   storable game_script = true) /\
  exists fresh copy w',
    onFetch "https://busting-bias.test" serves_game_js req activated_world
      = (RespondWith fresh, w') /\
    copy <> fresh /\
    bucket_entry CACHE_NAME (url req) (caches (settle w')) = Some game_script /\
    heap (settle w') !! fresh
      = Some {| content := game_script; bodyUsed := false |}.
Proof.
  split; [repeat split|].
  destruct (cache_miss_online_stores_a_clone
              "https://busting-bias.test" serves_game_js
              {| url := "https://busting-bias.test/game.js"; mode := "no-cors" |}
              activated_world game_script)
    as (fresh & copy & w' & Hrun & Hne & _ & _ & _ & _ & Hfresh & _ & Hstored);
    [reflexivity | reflexivity | reflexivity | reflexivity | reflexivity |].
  destruct Hstored as [Hentry _]; [reflexivity|].
  exists fresh, copy, w'. repeat split; assumption.
Defined.

(** C2, as stated, fails.  The sounds of the second script are not on the
    precache list; an audio element asks for a range of the file and is
    answered with a partial response (status 206).  The worker hands the page
    that response, readable, and queues the put of its clone, which the cache
    refuses: the bucket never holds the request. *)
Lemma partial_response_is_not_stored :
  let req := {| url := "https://busting-bias.test/sounds/positive.wav";
                mode := "no-cors" |} in
  let w' := snd (onFetch "https://busting-bias.test" serves_partial_audio req
                   activated_world) in
  (String.prefix "http" (url req) = true /\
   String.eqb (mode req) "navigate" = false /\
   storage_match (url req) (caches activated_world) = None /\
   serves_partial_audio (url req) = Some partial_audio) /\
  fst (onFetch "https://busting-bias.test" serves_partial_audio req
         activated_world) = RespondWith 0 /\
  heap (settle w') !! 0 = Some {| content := partial_audio; bodyUsed := false |} /\
  pending (settle w') = [] /\
  bucket_entry CACHE_NAME (url req) (caches (settle w')) = None.
Proof. vm_compute. repeat split. Qed.

(** C5.  A navigation whose URL passes the guard (as the URL of every
    navigation a worker is handed does) and whose network fetch fails is
    answered with the stored entry of the request when there is one; when
    there is none, with the stored "/offline.html" when there is one; and when
    there is neither, the page gets no response at all, which it sees as a
    failed fetch.  The storage is left as it was. *)
Theorem navigation_offline_fallback
    (origin : string) (network : string -> option ResponseData)
    (req : Request) (w : World) :
  String.prefix "http" (url req) = true ->
  mode req = "navigate" ->
  network (url req) = None ->
  let reply := fst (onFetch origin network req w) in
  let w' := snd (onFetch origin network req w) in
  caches w' = caches w /\ pending w' = pending w /\
  (forall d, storage_match (url req) (caches w) = Some d ->
     exists r, reply = RespondWith r /\
       heap w' !! r = Some {| content := d; bodyUsed := false |}) /\
  (forall d, storage_match (url req) (caches w) = None ->
     storage_match (absolute origin "/offline.html") (caches w) = Some d ->
     exists r, reply = RespondWith r /\
       heap w' !! r = Some {| content := d; bodyUsed := false |}) /\
  (storage_match (url req) (caches w) = None ->
   storage_match (absolute origin "/offline.html") (caches w) = None ->
   reply = NetworkError).
Proof.
  intros Hhttp Hmode Hnet reply w'. subst reply w'.
  rewrite onFetch_navigate_offline by assumption.
  destruct (storage_match (url req) (caches w)) as [d1|];
    [|destruct (storage_match (absolute origin "/offline.html") (caches w))
        as [d2|]];
    cbn [fst snd caches heap pending];
    (split; [reflexivity|]); (split; [reflexivity|]);
    repeat split; try discriminate.
  - intros d [= <-]. eexists. split; [reflexivity|].
    now apply list_lookup_middle.
  - intros d _ [= <-]. eexists. split; [reflexivity|].
    now apply list_lookup_middle.
Qed.

Lemma navigation_offline_fallback_witness :
  let req := {| url := "https://busting-bias.test/"; mode := "navigate" |} in
  (String.prefix "http" (url req) = true /\
   mode req = "navigate" /\
   offline (url req) = None) /\
  exists r,
    fst (onFetch "https://busting-bias.test" offline req world_with_home)
      = RespondWith r /\
    heap (snd (onFetch "https://busting-bias.test" offline req world_with_home))
      !! r = Some {| content := home_page; bodyUsed := false |}.
Proof.
  split; [repeat split|].
  destruct (navigation_offline_fallback
              "https://busting-bias.test" offline
              {| url := "https://busting-bias.test/"; mode := "navigate" |}
              world_with_home)
    as (_ & _ & Hstored & _); [reflexivity | reflexivity | reflexivity |].
  apply (Hstored home_page). reflexivity.
Defined.



(** *** The two precache lists *)

(** Installation followed by activation leaves the current bucket alone in a
    storage whose names were distinct. *)
Lemma install_then_activate_only_current
    (origin : string) (network : string -> option ResponseData)
    (assets : list string) (w : World) :
  List.NoDup (storage_keys (caches w)) ->
  only_current
    (caches (exec onActivate (exec (onInstall origin network assets) w))).
Proof.
  intros Hnd.
  destruct (onInstall_bucket origin network assets w) as (c & Hc & _).
  destruct (onActivate_run (exec (onInstall origin network assets) w))
    as (w' & Hrun & Hkeep & _).
  exists c. unfold exec at 1. rewrite Hrun. cbn [snd]. rewrite Hkeep.
  apply keep_NoDup; [|exact Hc].
  rewrite onInstall_keys. now apply storage_open_NoDup.
Qed.

(** C9.  "/offline.html" is not on the precache list of [service-worker.js],
    so install does not store it: when nothing had stored it before, it is
    still absent after install and activation, and a navigation that fails on
    the network and that no bucket holds then gets no response. *)
Theorem offline_page_is_never_precached
    (origin : string)
    (install_network fetch_network : string -> option ResponseData)
    (w : World) (req : Request) :
  storage_match (absolute origin "/offline.html") (caches w) = None ->
  String.prefix "http" (url req) = true ->
  mode req = "navigate" ->
  fetch_network (url req) = None ->
  storage_match (url req)
    (caches (exec onActivate
               (exec (onInstall origin install_network PRECACHE_ASSETS) w)))
    = None ->
  ~ In "/offline.html" PRECACHE_ASSETS /\
  storage_match (absolute origin "/offline.html")
    (caches (exec onActivate
               (exec (onInstall origin install_network PRECACHE_ASSETS) w)))
    = None /\
  fst (onFetch origin fetch_network req
         (exec onActivate
            (exec (onInstall origin install_network PRECACHE_ASSETS) w)))
    = NetworkError.
Proof.
  intros Hbefore Hhttp Hmode Hnet Hmiss.
  set (installed := exec (onInstall origin install_network PRECACHE_ASSETS) w)
    in *.
  assert (Hoff : storage_match (absolute origin "/offline.html")
                   (caches (exec onActivate installed)) = None).
  { destruct (onActivate_run installed) as (w' & Hrun & Hc & _).
    unfold exec at 1. rewrite Hrun. cbn [snd]. rewrite Hc.
    apply keep_match_None. apply onInstall_match_None; [exact Hbefore|].
    rewrite existsb_absolute. reflexivity. }
  split; [cbn; intuition discriminate|]. split; [exact Hoff|].
  rewrite onFetch_navigate_offline by assumption.
  now rewrite Hmiss, Hoff.
Qed.

Lemma offline_page_is_never_precached_witness :
  let req := {| url := "https://busting-bias.test/index.html?round=2";
                mode := "navigate" |} in
  let installed :=
    exec onActivate
      (exec (onInstall "https://busting-bias.test" serves_everything
               PRECACHE_ASSETS) fresh_world) in
  (storage_match (absolute "https://busting-bias.test" "/offline.html")
     (caches fresh_world) = None /\
   String.prefix "http" (url req) = true /\
   mode req = "navigate" /\
   offline (url req) = None /\
   storage_match (url req) (caches installed) = None) /\
  fst (onFetch "https://busting-bias.test" offline req installed)
    = NetworkError.
Proof.
  cbv zeta. split; [repeat apply conj; vm_compute; reflexivity|].
  apply (offline_page_is_never_precached
           "https://busting-bias.test" serves_everything offline fresh_world
           {| url := "https://busting-bias.test/index.html?round=2";
              mode := "navigate" |}); vm_compute; reflexivity.
Defined.

(** The other copy of the worker lists the offline page: there, once install
    could fetch it, the same navigation is answered with it. *)
Example offline_page_served_when_listed :
  let req := {| url := "https://busting-bias.test/index.html?round=2";
                mode := "navigate" |} in
  let installed :=
    exec onActivate
      (exec (onInstall "https://busting-bias.test" serves_everything
               PRECACHE_ASSETS_with_offline) fresh_world) in
  exists r,
    fst (onFetch "https://busting-bias.test" offline req installed)
      = RespondWith r /\
    heap (snd (onFetch "https://busting-bias.test" offline req installed)) !! r
      = Some {| content := {| status := 200;
                              body := "https://busting-bias.test/offline.html"; vary := [] |};
                bodyUsed := false |}.
Proof. cbv zeta. eexists. split; vm_compute; reflexivity. Qed.

End WorkerSpec.

(** ** The properties of the game *)

Module GameSpec.

(** Before the end an answer is recorded: one more attempt, and one more
    timer pending. *)
Lemma word_answer_in_play (choice : string) (g : WordGame.Game) :
  WordGame.currentIndex g < length (WordGame.stimuli g) ->
  length (WordGame.responses (WordGame.handleResponse choice g))
    = S (length (WordGame.responses g)) /\
  WordGame.timers (WordGame.handleResponse choice g) <> WordGame.timers g.
Proof.
  intros Hlt. unfold WordGame.handleResponse.
  destruct (Nat.leb_spec (length (WordGame.stimuli g)) (WordGame.currentIndex g));
    [lia|].
  destruct (lookup_lt_is_Some_2 (WordGame.stimuli g) _ Hlt) as [wordObj ->].
  cbn. rewrite length_app. cbn. split.
  - destruct (String.eqb choice (WordGame.correct wordObj)); cbn; lia.
  - intros E. apply (f_equal (@length _)) in E.
    rewrite !length_app in E.
    destruct (String.eqb choice (WordGame.correct wordObj)); cbn in E; lia.
Qed.

(** C10.  A call of [handleResponse] when [currentIndex >= stimuli.length] does
    nothing, in both scripts: the score, the index, the recorded answers, the
    feedback, the sounds and the timers, the whole state, are what they
    were. *)
Theorem handleResponse_past_the_end_is_noop :
  (forall (choice : string) (g : WordGame.Game),
     length (WordGame.stimuli g) <= WordGame.currentIndex g ->
     WordGame.handleResponse choice g = g) /\
  (forall (choice : string) (g : AlienGame.Game),
     length (AlienGame.stimuli g) <= AlienGame.currentIndex g ->
     AlienGame.handleResponse choice g = g).
Proof.
  split; intros choice g Hend.
  - unfold WordGame.handleResponse.
    now destruct (Nat.leb_spec (length (WordGame.stimuli g))
                               (WordGame.currentIndex g)); [|lia].
  - unfold AlienGame.handleResponse.
    now destruct (Nat.leb_spec (length (AlienGame.stimuli g))
                               (AlienGame.currentIndex g)); [|lia].
Qed.

Lemma handleResponse_past_the_end_is_noop_witness :
  (length (WordGame.stimuli Samples.finished_words)
     <= WordGame.currentIndex Samples.finished_words /\
   WordGame.handleResponse "left" Samples.finished_words
     = Samples.finished_words) /\
  (length (AlienGame.stimuli Samples.finished_aliens)
     <= AlienGame.currentIndex Samples.finished_aliens /\
   AlienGame.handleResponse "right" Samples.finished_aliens
     = Samples.finished_aliens).
Proof.
  split; (split; [cbn; lia|]).
  - apply (proj1 handleResponse_past_the_end_is_noop). cbn. lia.
  - apply (proj2 handleResponse_past_the_end_is_noop). cbn. lia.
Defined.

End GameSpec.

(** ** More on the worker *)

Module WorkerMore.
Import Host ServiceWorker Samples MoreSamples WorkerEffects StorageFacts
  WorkerFacts.

Lemma fetches_app (e1 e2 : list Event) :
  fetches (e1 ++ e2) = fetches e1 ++ fetches e2.
Proof. apply flat_map_app. Qed.

Lemma net_calls_fetches (evs : list Event) :
  net_calls evs = length (fetches evs).
Proof.
  unfold net_calls, fetches.
  induction evs as [|[] evs IH]; cbn; congruence.
Qed.

Section Install.

Variable origin : string.
Variable network : string -> option ResponseData.

Local Abbreviation asset_events := (asset_events origin network).

Lemma precache_body_trace (asset : string) (w : World) :
  exists w',
    precache_body origin network CACHE_NAME asset w = (Ok tt, w') /\
    trace w' = trace w ++ asset_events asset.
Proof.
  unfold precache_body, cache_add, net_fetch, WorkerEffects.asset_events. run.
  destruct (network (absolute origin asset)) as [d|]; [destruct (ok d)|]; run;
    eexists; (split; [reflexivity|]); cbn; now rewrite <- !app_assoc.
Qed.

Lemma precache_loop_trace (assets : list string) (w : World) :
  exists w',
    for_of assets (precache_body origin network CACHE_NAME) w = (Ok tt, w') /\
    trace w' = trace w ++ flat_map asset_events assets.
Proof.
  revert w. induction assets as [|a assets IH]; intros w.
  - exists w. cbn. now rewrite app_nil_r.
  - destruct (precache_body_trace a w) as (w1 & Hrun1 & Ht1).
    destruct (IH w1) as (w' & Hrun & Ht).
    exists w'. cbn [for_of flat_map].
    erewrite bind_Ok by exact Hrun1. split; [exact Hrun|].
    now rewrite Ht, Ht1, <- app_assoc.
Qed.

(** Everything install does to its host, in order. *)
Lemma onInstall_trace (assets : list string) (w : World) :
  trace (exec (onInstall origin network assets) w)
  = trace w ++ [CacheOpen CACHE_NAME] ++ flat_map asset_events assets
      ++ [SkipWaiting].
Proof.
  destruct (precache_loop_trace assets (exec (caches_open CACHE_NAME) w))
    as (w1 & Hrun & Ht).
  unfold exec at 1. unfold onInstall.
  erewrite bind_Ok.
  2:{ erewrite bind_Ok by reflexivity. exact Hrun. }
  run. rewrite Ht. run. now rewrite <- !app_assoc.
Qed.

Lemma fetches_asset_events (asset : string) :
  fetches (asset_events asset) = [absolute origin asset].
Proof.
  unfold WorkerEffects.asset_events.
  destruct (network (absolute origin asset)) as [d|]; [destruct (ok d)|];
    reflexivity.
Qed.

Lemma fetches_precache (assets : list string) :
  fetches (flat_map asset_events assets) = map (absolute origin) assets.
Proof.
  induction assets as [|a assets IH]; [reflexivity|].
  cbn [flat_map map]. now rewrite fetches_app, fetches_asset_events, IH.
Qed.

(** X1.  Install asks the network for every entry of the precache list once,
    in the order of the list, whatever succeeds or fails: there is no retry
    and no entry is skipped after a failure. *)
Theorem install_fetches_each_asset_once (assets : list string) (w : World) :
  exists evs,
    trace (exec (onInstall origin network assets) w) = trace w ++ evs /\
    fetches evs = map (absolute origin) assets /\
    net_calls (trace (exec (onInstall origin network assets) w))
      = net_calls (trace w) + length assets.
Proof.
  eexists. split; [apply onInstall_trace|].
  assert (H : fetches ([CacheOpen CACHE_NAME] ++ flat_map asset_events assets
                         ++ [SkipWaiting]) = map (absolute origin) assets).
  { rewrite !fetches_app, fetches_precache. cbn. now rewrite app_nil_r. }
  split; [exact H|].
  rewrite onInstall_trace, net_calls_app, (net_calls_fetches (_ ++ _)), H.
  now rewrite length_map.
Qed.

Lemma storage_lookup_open_other (name : string) (s : CacheStorage) :
  name <> CACHE_NAME ->
  storage_lookup name (storage_open CACHE_NAME s) = storage_lookup name s.
Proof.
  intros Hne. unfold storage_open.
  destruct (storage_lookup CACHE_NAME s); [reflexivity|].
  rewrite storage_lookup_app. destruct (storage_lookup name s); [reflexivity|].
  cbn [storage_lookup].
  destruct (String.eqb_spec CACHE_NAME name); [congruence | reflexivity].
Qed.

Lemma storage_lookup_mid_other (name other : string) (pre post : CacheStorage)
      c c' :
  name <> other ->
  storage_lookup name (pre ++ (other, c) :: post)
  = storage_lookup name (pre ++ (other, c') :: post).
Proof.
  intros Hne. rewrite !storage_lookup_app. cbn [storage_lookup].
  destruct (String.eqb_spec other name); [congruence | reflexivity].
Qed.

(** X2.  Install leaves alone what it does not replace: a bucket other than
    the current one is the same after install, and in the current bucket the
    entry of a URL that is not on the precache list, or whose fetch failed or
    was refused, is what it was.  A re-install while offline wipes nothing. *)
Theorem install_replaces_only_what_it_fetched
    (assets : list string) (w : World) (name key : string) :
  name <> CACHE_NAME
  \/ existsb (fun asset => String.eqb (absolute origin asset) key) assets = false
  \/ fetched network key = None ->
  bucket_entry name key (caches (exec (onInstall origin network assets) w))
  = bucket_entry name key (caches w).
Proof.
  intros Hcase.
  destruct (onInstall_run origin network assets w)
    as (w' & pre & c & post & evs & Hrun & Hs & Hpre & Hc & _).
  unfold exec. rewrite Hrun. cbn [snd]. rewrite Hc. unfold bucket_entry.
  destruct (String.eqb_spec name CACHE_NAME) as [->|Hne].
  - rewrite storage_lookup_mid by exact Hpre.
    rewrite precache_bucket_lookup.
    assert (Hold : storage_lookup CACHE_NAME (caches w) = None
                   \/ storage_lookup CACHE_NAME (caches w) = Some c).
    { unfold storage_open in Hs.
      destruct (storage_lookup CACHE_NAME (caches w)) as [c0|] eqn:E;
        [right | now left].
      rewrite Hs in E. rewrite storage_lookup_mid in E by exact Hpre.
      congruence. }
    assert (Hc0 : c !! key
                  = match storage_lookup CACHE_NAME (caches w) with
                    | Some c0 => c0 !! key
                    | None => None
                    end).
    { destruct Hold as [E|E]; rewrite E; [|reflexivity].
      unfold storage_open in Hs. rewrite E in Hs.
      assert (Hx : storage_lookup CACHE_NAME (caches w ++ [(CACHE_NAME, ∅)])
                   = Some c).
      { rewrite Hs. now apply storage_lookup_mid. }
      rewrite storage_lookup_app, E in Hx. cbn in Hx.
      injection Hx as <-. apply lookup_empty. }
    rewrite <- Hc0.
    destruct Hcase as [H|[H|H]]; [congruence | now rewrite H |].
    rewrite H. now destruct (existsb _ _).
  - rewrite (storage_lookup_mid_other name CACHE_NAME pre post _ c) by exact Hne.
    now rewrite <- Hs, storage_lookup_open_other.
Qed.

End Install.

Lemma install_replaces_only_what_it_fetched_witness :
  (CACHE_NAME <> CACHE_NAME
   \/ existsb (fun asset =>
                 String.eqb (absolute "https://busting-bias.test" asset)
                            "https://busting-bias.test/style.css")
              PRECACHE_ASSETS = false
   \/ fetched offline "https://busting-bias.test/style.css" = None) /\
  bucket_entry CACHE_NAME "https://busting-bias.test/style.css"
    (caches (exec (onInstall "https://busting-bias.test" offline PRECACHE_ASSETS)
                  activated_world))
  = Some stylesheet.
Proof.
  split; [right; right; reflexivity|].
  rewrite (install_replaces_only_what_it_fetched
             "https://busting-bias.test" offline PRECACHE_ASSETS activated_world
             CACHE_NAME "https://busting-bias.test/style.css").
  - reflexivity.
  - right. right. reflexivity.
Defined.

(** *** Interception, case by case *)

(** The cases of [onFetch], each with its outcome. *)
Ltac fetch_cases origin network req w :=
  let Hhttp := fresh "Hhttp" in
  let Hmode := fresh "Hmode" in
  let Hnet := fresh "Hnet" in
  let Hmatch := fresh "Hmatch" in
  let Hoff := fresh "Hoff" in
  let d := fresh "d" in
  destruct (String.prefix "http" (url req)) eqn:Hhttp;
  [ destruct (String.eqb_spec (mode req) "navigate") as [Hmode|Hmode];
    [ destruct (network (url req)) as [d|] eqn:Hnet;
      [ rewrite (onFetch_navigate_online origin network req w d) by assumption
      | rewrite (onFetch_navigate_offline origin network req w) by assumption;
        destruct (storage_match (url req) (caches w)) as [d|] eqn:Hmatch;
        [| destruct (storage_match (absolute origin "/offline.html") (caches w))
             as [d|] eqn:Hoff ] ]
    | destruct (storage_match (url req) (caches w)) as [d|] eqn:Hmatch;
      [ rewrite (onFetch_hit origin network req w d) by assumption
      | destruct (network (url req)) as [d|] eqn:Hnet;
        [ rewrite (onFetch_miss_online origin network req w d) by assumption
        | rewrite (onFetch_miss_offline origin network req w) by assumption ] ] ]
  | unfold onFetch; rewrite Hhttp; cbn [negb] ].

Lemma lookups_app (e1 e2 : list Event) :
  lookups (e1 ++ e2) = lookups e1 ++ lookups e2.
Proof. apply flat_map_app. Qed.

Lemma deletions_app (e1 e2 : list Event) :
  deletions (e1 ++ e2) = deletions e1 ++ deletions e2.
Proof. apply flat_map_app. Qed.

(** X3.  One event, bounded work: whatever the request and the state, the
    fetch handler makes at most one network call and at most two cache
    lookups, and deletes no bucket. *)
Theorem fetch_event_is_bounded
    (origin : string) (network : string -> option ResponseData)
    (req : Request) (w : World) :
  exists evs,
    trace (snd (onFetch origin network req w)) = trace w ++ evs /\
    length (fetches evs) <= 1 /\
    length (lookups evs) <= 2 /\
    deletions evs = [].
Proof.
  fetch_cases origin network req w; cbn [snd trace];
    try (eexists; split; [reflexivity|]; cbn; repeat split; lia).
  exists []. rewrite app_nil_r. cbn. repeat split; lia.
Qed.

(** X4.  Network first, and only the network: a navigation whose fetch
    succeeds is answered with the network response even when the storage
    holds the page; no lookup is made, nothing is stored and nothing is
    queued, so navigations never refresh the cache. *)
Theorem navigation_online_bypasses_cache
    (origin : string) (network : string -> option ResponseData)
    (req : Request) (w : World) (d : ResponseData) :
  String.prefix "http" (url req) = true ->
  mode req = "navigate" ->
  network (url req) = Some d ->
  exists r w',
    onFetch origin network req w = (RespondWith r, w') /\
    heap w' !! r = Some {| content := d; bodyUsed := false |} /\
    caches w' = caches w /\ pending w' = pending w /\
    trace w' = trace w ++ [NetFetch (url req)].
Proof.
  intros Hhttp Hmode Hnet. eexists _, _.
  split; [apply onFetch_navigate_online; eassumption|].
  cbn. repeat split. now apply list_lookup_middle.
Qed.

Lemma navigation_online_bypasses_cache_witness :
  let req := {| url := "https://busting-bias.test/"; mode := "navigate" |} in
  (String.prefix "http" (url req) = true /\
   mode req = "navigate" /\
   serves_home (url req) = Some fresh_home) /\
  storage_match (url req) (caches world_with_home) = Some home_page /\
  exists r w',
    onFetch "https://busting-bias.test" serves_home req world_with_home
      = (RespondWith r, w') /\
    heap w' !! r = Some {| content := fresh_home; bodyUsed := false |} /\
    caches w' = caches world_with_home.
Proof.
  cbv zeta. split; [repeat apply conj; reflexivity|].
  split; [reflexivity|].
  destruct (navigation_online_bypasses_cache
              "https://busting-bias.test" serves_home
              {| url := "https://busting-bias.test/"; mode := "navigate" |}
              world_with_home fresh_home)
    as (r & w' & Hrun & Hr & Hc & _); [reflexivity | reflexivity | reflexivity |].
  exists r, w'. repeat split; assumption.
Defined.

(** *** What a queued put leaves behind *)

Lemma run_put_caches (name key : string) (r : ref) (w : World) d :
  heap w !! r = Some {| content := d; bodyUsed := false |} ->
  storable d = true ->
  caches (exec (run_task (TaskPut name key r)) w)
  = storage_put name key d (caches w).
Proof.
  intros Hr Hd. unfold run_task, cache_put, read_body. run.
  rewrite Hr. cbn [content]. rewrite Hd. run. rewrite Hr. now run.
Qed.

Lemma storage_match_put (name key : string) d (s : CacheStorage) :
  storage_match key s = None -> In name (storage_keys s) ->
  storage_match key (storage_put name key d s) = Some d.
Proof.
  intros Hnone Hin. destruct (keys_In_lookup _ _ Hin) as [c Hc].
  destruct (storage_lookup_split _ _ _ Hc) as (pre & post & -> & Hpre).
  apply storage_match_mid_None in Hnone as (H1 & _ & _).
  rewrite storage_put_mid by exact Hpre.
  rewrite storage_match_app, H1. cbn. now rewrite lookup_insert_eq.
Qed.

Lemma bucket_entry_put_ne (name name' key key' : string) d (s : CacheStorage) :
  key' <> key ->
  bucket_entry name' key' (storage_put name key d s) = bucket_entry name' key' s.
Proof.
  intros Hne. unfold bucket_entry.
  induction s as [|[n c] s IH]; cbn; [reflexivity|].
  destruct (String.eqb_spec n name) as [->|Hn]; cbn.
  - destruct (String.eqb name name'); [|reflexivity].
    now apply lookup_insert_ne.
  - destruct (String.eqb n name'); [reflexivity | exact IH].
Qed.

Lemma bucket_entry_open_any (name name' key : string) (s : CacheStorage) :
  bucket_entry name' key (storage_open name s) = bucket_entry name' key s.
Proof.
  unfold bucket_entry, storage_open.
  destruct (storage_lookup name s) eqn:E; [reflexivity|].
  rewrite storage_lookup_app.
  destruct (storage_lookup name' s) eqn:E'; [reflexivity|]. cbn.
  destruct (String.eqb name name'); [apply lookup_empty | reflexivity].
Qed.

Lemma run_tasks_keys (ts : list Task) (w : World) :
  storage_keys (caches (run_tasks ts w)) = storage_keys (caches w).
Proof.
  revert w. induction ts as [|[name key r] ts IH]; intros w; cbn; [reflexivity|].
  rewrite IH.
  now destruct (run_task_frame (TaskPut name key r) w (S r)) as (_ & _ & H & _);
    [lia|].
Qed.

Lemma only_current_keys (s : CacheStorage) :
  only_current s <-> storage_keys s = [CACHE_NAME].
Proof.
  split.
  - intros [c ->]. reflexivity.
  - destruct s as [|[n c] [|p s]]; cbn; try discriminate.
    intros [= ->]. now exists c.
Qed.

Lemma storage_open_present (name : string) (s : CacheStorage) :
  In name (storage_keys s) -> storage_open name s = s.
Proof.
  intros H. destruct (keys_In_lookup _ _ H) as [c Hc].
  exact (storage_open_idem _ _ _ Hc).
Qed.

(** X5.  Fetched once, then served from the cache: after a miss that the
    network answered with a response that the cache accepts, and once the
    queued put has run, the same request is a hit, answered with what the
    network had sent, without a network call, whatever the network does by
    then. *)
Theorem fetched_once_then_served_from_cache
    (origin : string) (network later : string -> option ResponseData)
    (req : Request) (w : World) (d : ResponseData) :
  String.prefix "http" (url req) = true ->
  String.eqb (mode req) "navigate" = false ->
  storage_match (url req) (caches w) = None ->
  network (url req) = Some d ->
  storable d = true ->
  pending w = [] ->
  exists r w',
    onFetch origin later req (settle (snd (onFetch origin network req w)))
      = (RespondWith r, w') /\
    heap w' !! r = Some {| content := d; bodyUsed := false |} /\
    net_calls (trace w')
      = net_calls (trace (settle (snd (onFetch origin network req w)))).
Proof.
  intros Hhttp Hmode Hmatch Hnet Hd Hpend.
  assert (Hmode' : mode req <> "navigate") by now apply String.eqb_neq.
  rewrite (onFetch_miss_online origin network req w d) by assumption.
  unfold settle. cbn [snd pending]. rewrite Hpend. cbn [app run_tasks].
  match goal with |- context [exec (run_task ?t) ?v] =>
    set (w1 := exec (run_task t) v) end.
  assert (Hstored : storage_match (url req) (caches w1) = Some d).
  { unfold w1. rewrite (run_put_caches _ _ _ _ d).
    - cbn [caches set_pending]. apply storage_match_put.
      + now rewrite storage_match_open.
      + apply storage_open_keys.
    - cbn [heap set_pending]. apply list_lookup_middle.
      rewrite length_app. cbn. lia.
    - exact Hd. }
  eexists _, _.
  split; [apply onFetch_hit; eassumption|].
  cbn [heap trace]. split; [now apply list_lookup_middle|].
  rewrite net_calls_app. cbn. lia.
Qed.

Lemma fetched_once_then_served_from_cache_witness :
  let req := {| url := "https://busting-bias.test/game.js"; mode := "no-cors" |} in
  (String.prefix "http" (url req) = true /\
   String.eqb (mode req) "navigate" = false /\
   storage_match (url req) (caches activated_world) = None /\
   serves_game_js (url req) = Some game_script /\
   storable game_script = true /\
   pending activated_world = []) /\
  exists r w',
    onFetch "https://busting-bias.test" offline req
      (settle (snd (onFetch "https://busting-bias.test" serves_game_js req
                      activated_world)))
      = (RespondWith r, w') /\
    heap w' !! r = Some {| content := game_script; bodyUsed := false |}.
Proof.
  cbv zeta. split; [repeat apply conj; reflexivity|].
  destruct (fetched_once_then_served_from_cache
              "https://busting-bias.test" serves_game_js offline
              {| url := "https://busting-bias.test/game.js"; mode := "no-cors" |}
              activated_world game_script)
    as (r & w' & Hrun & Hr & _);
    [reflexivity | reflexivity | reflexivity | reflexivity | reflexivity
    | reflexivity |].
  exists r, w'. split; assumption.
Defined.

(** X6.  The fetch handler and the puts it queues keep the storage one
    bucket: when the current bucket is the only one, it is still the only one
    when the handler returns and after the queued work has run. *)
Theorem fetch_keeps_single_bucket
    (origin : string) (network : string -> option ResponseData)
    (req : Request) (w : World) :
  only_current (caches w) ->
  only_current (caches (snd (onFetch origin network req w))) /\
  only_current (caches (settle (snd (onFetch origin network req w)))).
Proof.
  rewrite !only_current_keys. intros Hk.
  assert (Hopen : storage_open CACHE_NAME (caches w) = caches w).
  { apply storage_open_present. rewrite Hk. now left. }
  unfold settle. rewrite run_tasks_keys.
  fetch_cases origin network req w; cbn [snd caches set_pending];
    rewrite ?Hopen; auto.
Qed.

Lemma fetch_keeps_single_bucket_witness :
  only_current (caches activated_world) /\
  only_current
    (caches (settle (snd (onFetch "https://busting-bias.test" serves_game_js
                            {| url := "https://busting-bias.test/game.js";
                               mode := "no-cors" |} activated_world)))).
Proof.
  split; [eexists; reflexivity|].
  apply (fetch_keeps_single_bucket "https://busting-bias.test" serves_game_js).
  eexists; reflexivity.
Defined.

(** X7.  A fetch event writes one entry at most, the entry of its own
    request: with nothing else queued, the entry of every other URL, in every
    bucket, is after the handler and its queued put what it was before. *)
Theorem fetch_writes_only_its_request
    (origin : string) (network : string -> option ResponseData)
    (req : Request) (w : World) (name key : string) :
  pending w = [] ->
  key <> url req ->
  bucket_entry name key
    (caches (settle (snd (onFetch origin network req w))))
  = bucket_entry name key (caches w).
Proof.
  intros Hpend Hkey. unfold settle.
  fetch_cases origin network req w; cbn [snd pending caches set_pending];
    rewrite ?Hpend; cbn [app run_tasks caches set_pending]; try reflexivity.
  match goal with |- context [exec (run_task (TaskPut _ _ ?r)) ?v] =>
    assert (Hr : heap v !! r = Some {| content := d; bodyUsed := false |})
  end.
  { cbn [heap set_pending]. apply list_lookup_middle.
    rewrite length_app. cbn. lia. }
  destruct (storable d) eqn:Hd.
  - rewrite (run_put_caches _ _ _ _ d Hr Hd). cbn [caches set_pending].
    now rewrite bucket_entry_put_ne, bucket_entry_open_any.
  - rewrite (run_put_refused _ _ _ _ d Hr Hd). cbn [caches set_pending].
    apply bucket_entry_open_any.
Qed.

Lemma fetch_writes_only_its_request_witness :
  (pending activated_world = [] /\
   "https://busting-bias.test/style.css" <> "https://busting-bias.test/game.js")
  /\
  bucket_entry CACHE_NAME "https://busting-bias.test/style.css"
    (caches (settle (snd (onFetch "https://busting-bias.test" serves_game_js
                            {| url := "https://busting-bias.test/game.js";
                               mode := "no-cors" |} activated_world))))
  = Some stylesheet.
Proof.
  split; [split; [reflexivity | discriminate]|].
  rewrite (fetch_writes_only_its_request
             "https://busting-bias.test" serves_game_js
             {| url := "https://busting-bias.test/game.js"; mode := "no-cors" |}
             activated_world CACHE_NAME "https://busting-bias.test/style.css");
    [reflexivity | reflexivity | discriminate].
Defined.

(** X19.  A response that the cache refuses is fetched again every time: after
    a miss answered with such a response (a partial response, say), and once
    the queued put has run, the request is still a miss, and the next event
    for it goes to the network once more and hands the page that answer. *)
Theorem refused_response_is_fetched_every_time
    (origin : string) (network : string -> option ResponseData)
    (req : Request) (w : World) (d : ResponseData) :
  String.prefix "http" (url req) = true ->
  String.eqb (mode req) "navigate" = false ->
  storage_match (url req) (caches w) = None ->
  network (url req) = Some d ->
  storable d = false ->
  pending w = [] ->
  storage_match (url req)
    (caches (settle (snd (onFetch origin network req w)))) = None /\
  exists r w',
    onFetch origin network req (settle (snd (onFetch origin network req w)))
      = (RespondWith r, w') /\
    heap w' !! r = Some {| content := d; bodyUsed := false |} /\
    net_calls (trace w')
      = S (net_calls (trace (settle (snd (onFetch origin network req w))))).
Proof.
  intros Hhttp Hmode Hmatch Hnet Hd Hpend.
  assert (Hmode' : mode req <> "navigate") by now apply String.eqb_neq.
  rewrite (onFetch_miss_online origin network req w d) by assumption.
  unfold settle. cbn [snd pending]. rewrite Hpend. cbn [app run_tasks].
  rewrite (run_put_refused _ _ _ _ d).
  - assert (Hmiss : storage_match (url req)
                      (storage_open CACHE_NAME (caches w)) = None)
      by now rewrite storage_match_open.
    split; [exact Hmiss|].
    eexists _, _.
    split; [apply onFetch_miss_online; eassumption|].
    cbn [heap trace caches set_pending]. split.
    + apply lookup_app_l_Some. now apply list_lookup_middle.
    + rewrite !net_calls_app. cbn. lia.
  - cbn [heap set_pending]. apply list_lookup_middle.
    rewrite length_app. cbn. lia.
  - exact Hd.
Qed.

Lemma refused_response_is_fetched_every_time_witness :
  let req := {| url := "https://busting-bias.test/sounds/positive.wav";
                mode := "no-cors" |} in
  (String.prefix "http" (url req) = true /\
   String.eqb (mode req) "navigate" = false /\
   storage_match (url req) (caches activated_world) = None /\
   serves_partial_audio (url req) = Some partial_audio /\
   storable partial_audio = false /\
   pending activated_world = []) /\
  storage_match (url req)
    (caches (settle (snd (onFetch "https://busting-bias.test"
                            serves_partial_audio req activated_world))))
    = None.
Proof.
  cbv zeta. split; [repeat apply conj; reflexivity|].
  destruct (refused_response_is_fetched_every_time
              "https://busting-bias.test" serves_partial_audio
              {| url := "https://busting-bias.test/sounds/positive.wav";
                 mode := "no-cors" |}
              activated_world partial_audio)
    as (Hmiss & _);
    [reflexivity | reflexivity | reflexivity | reflexivity | reflexivity
    | reflexivity |].
  exact Hmiss.
Defined.

(** *** Activation, event by event *)

Lemma promise_all_deletions_trace (keys : list string) (w : World) :
  exists vs w',
    promise_all
      (map (fun key =>
              if String.eqb key CACHE_NAME then mret None
              else deleted ← caches_delete key; mret (Some deleted))
           keys) w
    = (Ok vs, w') /\
    trace w' = trace w ++ map CacheDelete (stale keys).
Proof.
  revert w. induction keys as [|k keys IH]; intros w; cbn [map promise_all].
  - exists [], w. split; [reflexivity|]. cbn. now rewrite app_nil_r.
  - unfold stale. cbn [List.filter].
    destruct (String.eqb k CACHE_NAME) eqn:E; cbn [negb].
    + destruct (IH w) as (vs & w' & Hrun & Ht).
      exists (None :: vs), w'. split; [|exact Ht].
      erewrite bind_Ok by reflexivity.
      erewrite bind_Ok by exact Hrun. reflexivity.
    + destruct (IH (exec (caches_delete k) w)) as (vs & w' & Hrun & Ht).
      eexists (Some _ :: vs), w'. split.
      * erewrite bind_Ok by reflexivity.
        erewrite bind_Ok by exact Hrun. reflexivity.
      * rewrite Ht. run. cbn [map]. now rewrite <- app_assoc.
Qed.

Lemma onActivate_trace (w : World) :
  trace (exec onActivate w)
  = trace w ++ [CacheKeys] ++ map CacheDelete (stale (storage_keys (caches w)))
      ++ [ClientsClaim].
Proof.
  destruct (promise_all_deletions_trace (storage_keys (caches w))
              (exec caches_keys w)) as (vs & w' & Hrun & Ht).
  unfold exec at 1. unfold onActivate.
  erewrite bind_Ok.
  2:{ erewrite bind_Ok by reflexivity. exact Hrun. }
  run. rewrite Ht. run. now rewrite <- !app_assoc.
Qed.

Lemma deletions_map (names : list string) :
  deletions (map CacheDelete names) = names.
Proof.
  unfold deletions. induction names as [|n names IH]; cbn; [reflexivity|].
  now f_equal.
Qed.

Lemma fetches_map_delete (names : list string) :
  fetches (map CacheDelete names) = [].
Proof.
  unfold fetches. induction names as [|n names IH]; cbn; [reflexivity | exact IH].
Qed.

(** X8.  Activation asks for the deletion of the buckets that are not the
    current one, each as often as [caches.keys()] lists it and in that order,
    never for the deletion of the current bucket, and it makes no network
    call. *)
Theorem activate_deletes_exactly_the_stale (w : World) :
  exists evs,
    trace (exec onActivate w) = trace w ++ evs /\
    deletions evs
      = List.filter (fun key => negb (String.eqb key CACHE_NAME))
                    (storage_keys (caches w)) /\
    ~ In CACHE_NAME (deletions evs) /\
    fetches evs = [].
Proof.
  eexists. split; [apply onActivate_trace|].
  rewrite !deletions_app, !fetches_app, deletions_map, fetches_map_delete.
  cbn. rewrite app_nil_r. split; [reflexivity|]. split; [|reflexivity].
  intros H. apply filter_In in H as [_ H].
  now rewrite String.eqb_refl in H.
Qed.

(** *** From install to the first requests *)







End WorkerMore.

(** ** The first script, played *)

Module WordFacts.
Import WordGame WordPlay GameSamples.

Ltac gsimpl :=
  cbn [game page on_game on_page set_timers hide_feedback_and_step unshake
       show_word wait reset_game updateScoreDisplay
       stimuli currentIndex score responses startTime scoreDisplay
       feedbackText feedbackClass feedbackDisplay stimulusClasses now played
       timers gameData app fold_left callback fst snd].

(** *** One answer *)

Lemma word_handleResponse_done (choice : string) (g : Game) :
  length (stimuli g) <= currentIndex g -> handleResponse choice g = g.
Proof.
  intros H. unfold handleResponse.
  destruct (Nat.leb_spec (length (stimuli g)) (currentIndex g)); [reflexivity|lia].
Qed.

(** The answer to the word on show, field by field. *)
Lemma word_handleResponse_answer (choice : string) (g : Game) (st : Stimulus) :
  stimuli g !! currentIndex g = Some st ->
  let isCorrect := String.eqb choice (correct st) in
  let attempt :=
    {| a_word := word st; a_choice := choice; a_isCorrect := isCorrect;
       a_timeTaken := (now g - startTime g)%Z;
       a_correctAnswer := correct st |} in
  handleResponse choice g =
  {| stimuli := stimuli g; currentIndex := currentIndex g;
     score := if isCorrect then S (score g) else score g;
     responses := responses g ++ [attempt];
     startTime := startTime g;
     scoreDisplay :=
       "Score: " +:+ pretty (if isCorrect then S (score g) else score g);
     feedbackText := if isCorrect then "✔" else "✘";
     feedbackClass := if isCorrect then "correct" else "incorrect";
     feedbackDisplay := "block";
     stimulusClasses :=
       if isCorrect then stimulusClasses g else stimulusClasses g ++ ["shake"];
     now := now g;
     played :=
       played g ++ [if isCorrect then "correct-sound" else "incorrect-sound"];
     timers :=
       timers g ++ (if isCorrect then [] else [(400, RemoveShake)])
         ++ [(600, HideFeedbackAndAdvance)];
     gameData := Some (responses g ++ [attempt]) |}.
Proof.
  intros Hst isCorrect attempt. unfold handleResponse.
  pose proof (lookup_lt_Some _ _ _ Hst) as Hlt.
  destruct (Nat.leb_spec (length (stimuli g)) (currentIndex g)); [lia|].
  rewrite Hst. fold isCorrect.
  destruct isCorrect; reflexivity.
Qed.

Lemma in_play_stimulus (g : Game) :
  currentIndex g < length (stimuli g) ->
  exists st, stimuli g !! currentIndex g = Some st.
Proof. intros H. now apply lookup_lt_is_Some_2. Qed.

(** *** The score is the number of answers marked correct *)

Lemma correct_answers_app (r1 r2 : list Attempt) :
  correct_answers (r1 ++ r2) = correct_answers r1 + correct_answers r2.
Proof. unfold correct_answers. now rewrite List.filter_app, length_app. Qed.

Lemma handleResponse_counted (choice : string) (g : Game) :
  counted g -> counted (handleResponse choice g).
Proof.
  intros [Hs Hd].
  destruct (Nat.le_gt_cases (length (stimuli g)) (currentIndex g)) as [H|H].
  - rewrite word_handleResponse_done by exact H. now split.
  - destruct (in_play_stimulus g H) as [st Hst].
    rewrite (word_handleResponse_answer choice g st Hst).
    split; cbn [score responses gameData].
    + rewrite correct_answers_app, <- Hs. unfold correct_answers. cbn.
      destruct (String.eqb choice (correct st)); cbn; lia.
    + now right.
Qed.

Lemma endGame_counted (s : Screen) :
  counted (game s) -> counted (game (endGame s)).
Proof. intros H. exact H. Qed.

Lemma showNextStimulus_counted (s : Screen) :
  counted (game s) -> counted (game (showNextStimulus s)).
Proof.
  intros H. unfold showNextStimulus.
  destruct (Nat.ltb _ _); [|exact H].
  destruct (stimuli (game s) !! currentIndex (game s)); exact H.
Qed.

Lemma initGame_counted (shuffled : list Stimulus) (s : Screen) :
  counted (game (initGame shuffled s)).
Proof.
  unfold initGame. apply showNextStimulus_counted. split; [reflexivity|].
  now left.
Qed.

Lemma callback_counted (cb : Callback) (s : Screen) :
  counted (game s) -> counted (game (callback cb s)).
Proof.
  intros H. destruct cb; cbn [callback]; [exact H|].
  apply showNextStimulus_counted. exact H.
Qed.

Lemma step_counted (s : Screen) (i : Input) :
  counted (game s) -> counted (game (step s i)).
Proof.
  intros H. destruct i; cbn [step].
  - destruct (leftDisabled _); [exact H|]. now apply handleResponse_counted.
  - destruct (rightDisabled _); [exact H|]. now apply handleResponse_counted.
  - destruct (restartHidden _); [exact H|]. apply initGame_counted.
  - unfold keydown.
    destruct (String.eqb key "ArrowLeft"), (String.eqb key "ArrowRight");
      cbn [on_game game]; auto using handleResponse_counted.
  - exact H.
  - unfold touchmove. now destruct (negb _).
  - unfold touchend. destruct (negb _); [exact H|]. cbn [on_page page game].
    destruct (Z.ltb _ _); [|exact H].
    cbn [on_game game]. now apply handleResponse_counted.
  - unfold fire. destruct (timers (game s) !! i) as [[delay cb]|]; [|exact H].
    apply callback_counted. exact H.
  - exact H.
Qed.

Lemma run_counted (inputs : list Input) (s : Screen) :
  counted (game s) -> counted (game (run inputs s)).
Proof.
  revert s. induction inputs as [|i inputs IH]; intros s H; [exact H|].
  cbn [run fold_left]. apply IH. now apply step_counted.
Qed.

Lemma correct_answers_le (rs : list Attempt) :
  correct_answers rs <= length rs.
Proof. unfold correct_answers. apply List.filter_length_le. Qed.

Lemma correct_answers_all (rs : list Attempt) :
  correct_answers rs = length rs <-> forallb a_isCorrect rs = true.
Proof.
  unfold correct_answers.
  induction rs as [|r rs IH]; cbn; [tauto|].
  pose proof (List.filter_length_le a_isCorrect rs).
  destruct (a_isCorrect r); cbn.
  - rewrite <- IH. split; [now intros [= ->] | now intros ->].
  - split; [lia | discriminate].
Qed.

Lemma score_counts_the_correct_answers_aux
    (shuffled : list Stimulus) (s0 : Screen) (inputs : list Input) :
  counted (game (run inputs (initGame shuffled s0))).
Proof. apply run_counted, initGame_counted. Qed.

(** X11.  Whatever happens to the page after a game was started (clicks,
    keys, swipes, timers, restarts, in any order), the score is the number of
    answers recorded as correct, and once an answer was given the answers
    kept in [localStorage] are those of the current game. *)
Theorem score_counts_the_correct_answers
    (shuffled : list Stimulus) (s0 : Screen) (inputs : list Input) :
  let g := game (run inputs (initGame shuffled s0)) in
  score g = correct_answers (responses g) /\
  (responses g = [] \/ gameData g = Some (responses g)).
Proof. apply run_counted, initGame_counted. Qed.

Lemma In_checkTrophies (score : nat) (rs : list Attempt) :
  (In perfect_trophy (checkTrophies score rs) <-> score = length rs) /\
  (In persistence_trophy (checkTrophies score rs) <-> 10 <= length rs) /\
  (In fast_trophy (checkTrophies score rs) <->
     5 <= length (List.filter (fun r => Z.leb (a_timeTaken r) 2000) rs)).
Proof.
  unfold checkTrophies. rewrite !in_app_iff.
  destruct (Nat.eqb_spec score (length rs));
    destruct (Nat.leb_spec 10 (length rs));
    destruct (Nat.leb_spec 5
      (length (List.filter (fun r => Z.leb (a_timeTaken r) 2000) rs)));
    cbn; repeat split; intros; try lia; auto;
    repeat match goal with
           | H : _ \/ _ |- _ => destruct H
           | H : False |- _ => destruct H
           | H : _ = _ |- _ => discriminate H
           end.
Qed.

Lemma In_trophiesItems (trophy : string) (s : Screen) :
  trophy <> "No trophies earned this time. Try again!" ->
  In trophy (trophiesItems (page (endGame s))) <->
  In trophy (checkTrophies (score (game s)) (responses (game s))).
Proof.
  intros Hne. cbn.
  destruct (Nat.eqb _ 0); [|tauto].
  rewrite in_app_iff. cbn. intuition congruence.
Qed.

Lemma trophiesItems_nonempty (s : Screen) :
  trophiesItems (page (endGame s)) <> [].
Proof.
  cbn [endGame page trophiesItems].
  destruct (checkTrophies _ _); cbn; discriminate.
Qed.

(** X12.  The trophies shown when a game ends, for any game: "Perfect Score"
    is on the list exactly when every recorded answer is correct (also when
    there is none), "Persistence" exactly when ten answers or more were
    recorded, "Fast Swiper" exactly when five or more took two seconds at
    most; and the list is never empty. *)
Theorem trophies_at_the_end
    (shuffled : list Stimulus) (s0 : Screen) (inputs : list Input) :
  let s := run inputs (initGame shuffled s0) in
  let items := trophiesItems (page (endGame s)) in
  (In perfect_trophy items <->
     forallb a_isCorrect (responses (game s)) = true) /\
  (In persistence_trophy items <-> 10 <= length (responses (game s))) /\
  (In fast_trophy items <->
     5 <= length (List.filter (fun r => Z.leb (a_timeTaken r) 2000)
                              (responses (game s)))) /\
  items <> [].
Proof.
  intros s items. subst items.
  destruct (score_counts_the_correct_answers_aux shuffled s0 inputs) as [Hs _].
  fold s in Hs.
  destruct (In_checkTrophies (score (game s)) (responses (game s)))
    as (H1 & H2 & H3).
  rewrite !In_trophiesItems by discriminate.
  rewrite H1, H2, H3, Hs, correct_answers_all.
  repeat split; try tauto.
  apply trophiesItems_nonempty.
Qed.

(** *** An orderly game *)

Lemma endGame_over (s : Screen) : over (endGame s).
Proof. repeat split. Qed.

(** One round on the word on show, with no timer pending. *)
Lemma round_step (s : Screen) (st : Stimulus) (answer : string * Z) :
  timers (game s) = [] ->
  startTime (game s) = now (game s) ->
  stimuli (game s) !! currentIndex (game s) = Some st ->
  let s' := round s answer in
  stimuli (game s') = stimuli (game s) /\
  currentIndex (game s') = S (currentIndex (game s)) /\
  score (game s')
    = score (game s) + (if String.eqb (fst answer) (correct st) then 1 else 0) /\
  responses (game s') = responses (game s) ++ [attempt_of st answer] /\
  timers (game s') = [] /\
  (S (currentIndex (game s)) < length (stimuli (game s)) ->
   startTime (game s') = now (game s')) /\
  (length (stimuli (game s)) <= S (currentIndex (game s)) -> over s').
Proof.
  intros Htim Hstart Hst s'. subst s'. destruct answer as [choice ms].
  unfold round, drain. cbn [fst snd].
  change (on_game (handleResponse choice) (on_game (wait ms) s))
    with {| game := handleResponse choice (wait ms (game s)); page := page s |}.
  rewrite (word_handleResponse_answer choice (wait ms (game s)) st) by exact Hst.
  gsimpl. rewrite Htim, Hstart.
  replace (now (game s) + ms - now (game s))%Z with ms by lia.
  unfold attempt_of. cbn [fst snd].
  destruct (String.eqb choice (correct st)); gsimpl;
    unfold showNextStimulus; gsimpl;
    (destruct (Nat.ltb_spec (S (currentIndex (game s)))
                            (length (stimuli (game s)))) as [Hlt|Hge];
     [ destruct (lookup_lt_is_Some_2 (stimuli (game s)) _ Hlt) as [st' ->]
     | ]);
    cbn; repeat split; try reflexivity; try lia.
Qed.

Lemma correct_answers_cons (r : Attempt) (rs : list Attempt) :
  correct_answers (r :: rs)
  = (if a_isCorrect r then 1 else 0) + correct_answers rs.
Proof. unfold correct_answers. cbn. now destruct (a_isCorrect r). Qed.

Lemma play_from (answers : list (string * Z)) (s : Screen) :
  timers (game s) = [] ->
  (currentIndex (game s) < length (stimuli (game s)) ->
   startTime (game s) = now (game s)) ->
  (length (stimuli (game s)) <= currentIndex (game s) -> over s) ->
  currentIndex (game s) + length answers = length (stimuli (game s)) ->
  let recorded :=
    zip_with attempt_of (drop (currentIndex (game s)) (stimuli (game s)))
             answers in
  stimuli (game (play answers s)) = stimuli (game s) /\
  currentIndex (game (play answers s)) = length (stimuli (game s)) /\
  responses (game (play answers s)) = responses (game s) ++ recorded /\
  score (game (play answers s)) = score (game s) + correct_answers recorded /\
  over (play answers s).
Proof.
  revert s. induction answers as [|a answers IH]; intros s Htim Hstart Hover Hlen.
  - cbn [length] in Hlen. cbn [play fold_left].
    rewrite drop_ge by lia. cbn. rewrite app_nil_r.
    split; [reflexivity|]. split; [lia|]. split; [reflexivity|].
    split; [lia|]. apply Hover. lia.
  - cbn [length] in Hlen.
    assert (Hlt : currentIndex (game s) < length (stimuli (game s))) by lia.
    destruct (lookup_lt_is_Some_2 _ _ Hlt) as [st Hst].
    destruct (round_step s st a Htim (Hstart Hlt) Hst)
      as (H1 & H2 & H3 & H4 & H5 & H6 & H7).
    cbn [play fold_left]. fold (play answers (round s a)).
    destruct (IH (round s a)) as (I1 & I2 & I3 & I4 & I5).
    + exact H5.
    + rewrite H1, H2. exact H6.
    + rewrite H1, H2. exact H7.
    + rewrite H1, H2. lia.
    + rewrite H1, H2 in *. rewrite (drop_S _ _ _ Hst). cbn [zip_with].
      rewrite I1, I2, I3, I4, H3, H4, correct_answers_cons, <- app_assoc.
      cbn [app a_isCorrect attempt_of].
      split; [reflexivity|]. split; [reflexivity|]. split; [reflexivity|].
      split; [|exact I5]. destruct (String.eqb a.1 (correct st)); lia.
Qed.

Lemma initGame_start (shuffled : list Stimulus) (s0 : Screen) :
  stimuli (game (initGame shuffled s0)) = shuffled /\
  currentIndex (game (initGame shuffled s0)) = 0 /\
  score (game (initGame shuffled s0)) = 0 /\
  responses (game (initGame shuffled s0)) = [] /\
  timers (game (initGame shuffled s0)) = timers (game s0) /\
  (0 < length shuffled ->
   startTime (game (initGame shuffled s0)) = now (game (initGame shuffled s0)))
  /\
  (length shuffled <= 0 -> over (initGame shuffled s0)).
Proof.
  unfold initGame, showNextStimulus. gsimpl.
  destruct (Nat.ltb_spec 0 (length shuffled)) as [Hlt|Hge].
  - destruct (lookup_lt_is_Some_2 shuffled 0 Hlt) as [st ->].
    cbn. repeat split; lia.
  - cbn. repeat split; lia.
Qed.

Lemma attempt_rows_from (rs : list Attempt) (rows : list Row) :
  fold_left (fun rows response => rows ++ [attempt_row (length rows) response])
            rs rows
  = rows ++ imap (fun i => attempt_row (length rows + i)) rs.
Proof.
  revert rows. induction rs as [|r rs IH]; intros rows; cbn.
  - now rewrite app_nil_r.
  - rewrite IH, <- app_assoc, length_app. cbn. rewrite Nat.add_0_r.
    do 2 f_equal. apply imap_ext. intros i x _. cbn. f_equal. lia.
Qed.

Lemma attempt_rows_imap (rs : list Attempt) :
  attempt_rows rs = imap attempt_row rs.
Proof. unfold attempt_rows. now rewrite attempt_rows_from. Qed.

(** X13.  An orderly game, from start to end.  When nothing is pending at the
    start and every word is answered once, each answer followed by its
    timers, the game ends after the last word: the recorded answers are the
    words in their shuffled order, each with the choice made, whether it was
    right and the time waited; the score is the number of right choices; the
    buttons are disabled, the final score is on the page and the recap has
    one row per word, numbered from 1. *)
Theorem orderly_game_records_every_answer
    (shuffled : list Stimulus) (answers : list (string * Z)) (s0 : Screen) :
  timers (game s0) = [] ->
  length answers = length shuffled ->
  let s := play answers (initGame shuffled s0) in
  responses (game s) = zip_with attempt_of shuffled answers /\
  score (game s) = correct_answers (zip_with attempt_of shuffled answers) /\
  currentIndex (game s) = length shuffled /\
  over s /\
  attemptsRows (page s)
    = imap attempt_row (zip_with attempt_of shuffled answers).
Proof.
  intros Htim Hlen s.
  destruct (initGame_start shuffled s0) as (H1 & H2 & H3 & H4 & H5 & H6 & H7).
  destruct (play_from answers (initGame shuffled s0)) as (I1 & I2 & I3 & I4 & I5).
  - now rewrite H5.
  - rewrite H1, H2. exact H6.
  - rewrite H1, H2. exact H7.
  - rewrite H1, H2. lia.
  - fold s in I1, I2, I3, I4, I5.
    rewrite H1, H2, H3, H4 in *. cbn [drop app] in *.
    rewrite Nat.add_0_l in I4.
    repeat split; try assumption; try apply I5.
    destruct I5 as (_ & _ & _ & _ & _ & _ & _ & Hrows).
    now rewrite Hrows, I3, attempt_rows_imap.
Qed.

Lemma orderly_game_records_every_answer_witness :
  (timers (game blank_screen) = [] /\
   length four_answers = length originalStimuli) /\
  score (game (play four_answers (initGame originalStimuli blank_screen))) = 3 /\
  map a_isCorrect
      (responses (game (play four_answers
                          (initGame originalStimuli blank_screen))))
    = [true; true; false; true] /\
  gameOverText (page (play four_answers (initGame originalStimuli blank_screen)))
    = "You scored 3 out of 4!".
Proof.
  split; [split; reflexivity|].
  destruct (orderly_game_records_every_answer
              originalStimuli four_answers blank_screen)
    as (Hr & Hs & _ & Hover & _); [reflexivity | reflexivity |].
  rewrite Hs, Hr. split; [reflexivity|]. split; [reflexivity|].
  destruct Hover as (_ & _ & _ & _ & Htext & _).
  rewrite Htext, Hs. reflexivity.
Defined.

(** *** Answers during the feedback *)

Lemma showNextStimulus_index (s : Screen) :
  currentIndex (game (showNextStimulus s)) = currentIndex (game s).
Proof.
  unfold showNextStimulus. destruct (Nat.ltb _ _); [|reflexivity].
  now destruct (stimuli (game s) !! currentIndex (game s)).
Qed.

(** X14.  [handleResponse] does not wait for the feedback of the previous
    answer to end.  A second answer given before the timer of the first has
    fired answers the same word again: a right choice repeated scores two
    points for one word and records two attempts, and the two timers then
    step over the next word, which is never answered. *)
Theorem double_answer_scores_twice
    (s : Screen) (st : Stimulus) :
  timers (game s) = [] ->
  stimuli (game s) !! currentIndex (game s) = Some st ->
  let twice :=
    on_game (handleResponse (correct st))
            (on_game (handleResponse (correct st)) s) in
  score (game twice) = score (game s) + 2 /\
  currentIndex (game twice) = currentIndex (game s) /\
  map a_word (responses (game twice))
    = map a_word (responses (game s)) ++ [word st; word st] /\
  timers (game twice)
    = [(600, HideFeedbackAndAdvance); (600, HideFeedbackAndAdvance)] /\
  currentIndex (game (drain twice)) = currentIndex (game s) + 2.
Proof.
  intros Htim Hst twice. subst twice.
  change (on_game (handleResponse (correct st))
            (on_game (handleResponse (correct st)) s))
    with {| game := handleResponse (correct st)
                      (handleResponse (correct st) (game s));
            page := page s |}.
  unfold drain.
  rewrite (word_handleResponse_answer (correct st) (game s) st Hst).
  rewrite String.eqb_refl.
  match goal with |- context [handleResponse _ ?g] =>
    rewrite (word_handleResponse_answer (correct st) g st) by exact Hst end.
  rewrite String.eqb_refl. gsimpl. rewrite Htim.
  rewrite !map_app. cbn [map a_word app].
  split; [rewrite Nat.add_comm; reflexivity|]. split; [reflexivity|].
  split; [now rewrite <- app_assoc|]. split; [reflexivity|].
  gsimpl. rewrite showNextStimulus_index. gsimpl.
  rewrite showNextStimulus_index. gsimpl.
  rewrite Nat.add_comm. reflexivity.
Qed.

Lemma double_answer_scores_twice_witness :
  (timers (game (initGame originalStimuli blank_screen)) = [] /\
   stimuli (game (initGame originalStimuli blank_screen))
     !! currentIndex (game (initGame originalStimuli blank_screen))
     = Some {| word := "Apple"; correct := "left" |}) /\
  score (game (on_game (handleResponse "left")
                 (on_game (handleResponse "left")
                    (initGame originalStimuli blank_screen)))) = 2.
Proof.
  split; [split; reflexivity|].
  apply (double_answer_scores_twice
           (initGame originalStimuli blank_screen)
           {| word := "Apple"; correct := "left" |}); reflexivity.
Defined.

(** *** Swipes *)

(** X15.  A swipe answers when it is longer than 100 pixels, to the side it
    went: after a touch at [x0] moved to [x1] and lifted, the game is what
    [handleResponse] makes of it when [|x1 - x0| > 100] ("right" for a
    positive distance, "left" otherwise), and is untouched for a distance of
    100 pixels or less, in which case the word is moved back to its place. *)
Theorem swipe_answers_beyond_100_pixels (s : Screen) (x0 x1 : Z) :
  let s' := run [TouchStart x0; TouchMove x1; TouchEnd] s in
  game s'
    = (if Z.ltb 100 (Z.abs (x1 - x0))
       then handleResponse (if Z.ltb 0 (x1 - x0) then "right" else "left")
                           (game s)
       else game s) /\
  isDragging (page s') = false /\
  (Z.abs (x1 - x0) <= 100 -> transform (page s') = "translateX(0)")%Z.
Proof.
  cbn [run fold_left step]. unfold touchend, touchmove, touchstart.
  cbn [on_page page game set_touch isDragging negb currentX touchStartX].
  destruct (Z.ltb_spec 100 (Z.abs (x1 - x0))); cbn; repeat split; lia.
Qed.

Lemma swipe_answers_beyond_100_pixels_witness :
  (Z.abs (90 - 40) <= 100)%Z /\
  transform (page (run [TouchStart 40; TouchMove 90; TouchEnd] blank_screen))
    = "translateX(0)".
Proof.
  split; [lia|].
  pose proof (swipe_answers_beyond_100_pixels blank_screen 40 90) as H.
  cbv zeta in H. destruct H as (_ & _ & H). apply H. lia.
Defined.

(** X16.  The end of a touch reads the position of the last move, also when
    that move belongs to an earlier touch: a tap that does not move, at more
    than 100 pixels from where the previous swipe ended, is taken for a swipe
    and answers. *)
Theorem tap_after_a_swipe_answers (s : Screen) (x0 : Z) :
  (100 < Z.abs (currentX (page s) - x0))%Z ->
  game (run [TouchStart x0; TouchEnd] s)
  = handleResponse
      (if Z.ltb 0 (currentX (page s) - x0) then "right" else "left")
      (game s).
Proof.
  intros Hfar. cbn [run fold_left step]. unfold touchend, touchstart.
  cbn [on_page page game set_touch isDragging negb currentX touchStartX].
  destruct (Z.ltb_spec 100 (Z.abs (currentX (page s) - x0))); [|lia].
  reflexivity.
Qed.

Lemma tap_after_a_swipe_answers_witness :
  let swiped :=
    run [TouchStart 40; TouchMove 300; TouchEnd; Fire 0]
        (initGame originalStimuli blank_screen) in
  (100 < Z.abs (currentX (page swiped) - 60))%Z /\
  length (responses (game (run [TouchStart 60; TouchEnd] swiped)))
    = S (length (responses (game swiped))).
Proof.
  cbv zeta. split; [reflexivity|].
  rewrite (tap_after_a_swipe_answers
             (run [TouchStart 40; TouchMove 300; TouchEnd; Fire 0]
                  (initGame originalStimuli blank_screen)) 60);
    reflexivity.
Defined.

End WordFacts.

(** ** The second script, played *)

Module AlienFacts.
Import AlienGame AlienPlay AlienSamples.

Ltac asimpl :=
  cbn [game page on_game set_timers step_index clear_feedback
       stimuli currentIndex score scoreDisplay feedbackText attemptsList
       played timers app fold_left callback fst snd].

Lemma alien_handleResponse_done (choice : string) (g : Game) :
  length (stimuli g) <= currentIndex g -> handleResponse choice g = g.
Proof.
  intros H. unfold handleResponse.
  destruct (Nat.leb_spec (length (stimuli g)) (currentIndex g)); [reflexivity|lia].
Qed.

(** The answer to the alien on show, field by field. *)
Lemma alien_handleResponse_answer (choice : string) (g : Game) (alien : Stimulus) :
  stimuli g !! currentIndex g = Some alien ->
  let isCorrect := String.eqb choice (correct alien) in
  handleResponse choice g =
  {| stimuli := stimuli g; currentIndex := currentIndex g;
     score := if isCorrect then S (score g) else score g;
     scoreDisplay :=
       if isCorrect then "Score: " +:+ pretty (S (score g)) else scoreDisplay g;
     feedbackText := if isCorrect then "Positive" else "Negative";
     attemptsList :=
       attemptsList g ++
       [ {| thumbnail := image alien;
            choiceShown := toUpperCase choice;
            categoryClass :=
              if String.eqb (correct alien) "right" then "positive" else "negative";
            categoryLabel :=
              if String.eqb (correct alien) "right" then "Positive" else "Negative";
            mark := if isCorrect then "✔" else "✘" |} ];
     played :=
       played g ++ [if isCorrect then "/sounds/positive.wav"
                    else "/sounds/negative.wav"];
     timers := timers g ++ [(600, Advance)] |}.
Proof.
  intros Hst isCorrect. unfold handleResponse.
  pose proof (lookup_lt_Some _ _ _ Hst) as Hlt.
  destruct (Nat.leb_spec (length (stimuli g)) (currentIndex g)); [lia|].
  rewrite Hst. fold isCorrect. unfold answer_feedback, logAttempt, setTimeout.
  fold isCorrect. destruct isCorrect eqn:E; cbn; rewrite ?E; reflexivity.
Qed.

(** *** The score is the number of rows marked right *)

Lemma right_rows_app (r1 r2 : list Row) :
  right_rows (r1 ++ r2) = right_rows r1 + right_rows r2.
Proof. unfold right_rows. now rewrite List.filter_app, length_app. Qed.

Lemma handleResponse_tallied (choice : string) (g : Game) :
  tallied g -> tallied (handleResponse choice g).
Proof.
  unfold tallied. intros Hs.
  destruct (Nat.le_gt_cases (length (stimuli g)) (currentIndex g)) as [H|H].
  - now rewrite alien_handleResponse_done.
  - destruct (lookup_lt_is_Some_2 _ _ H) as [alien Hst].
    rewrite (alien_handleResponse_answer choice g alien Hst).
    cbn [score attemptsList]. rewrite right_rows_app, <- Hs.
    destruct (String.eqb choice (correct alien)); cbn; lia.
Qed.

Lemma showNextStimulus_tallied (s : Screen) :
  tallied (game s) -> tallied (game (showNextStimulus s)).
Proof.
  intros H. unfold showNextStimulus.
  destruct (Nat.ltb _ _); [|exact H].
  destruct (stimuli (game s) !! currentIndex (game s)); exact H.
Qed.

Lemma initGame_tallied (shuffled : list Stimulus) (s : Screen) :
  tallied (game (initGame shuffled s)).
Proof. unfold initGame. now apply showNextStimulus_tallied. Qed.

Lemma step_tallied (s : Screen) (i : Input) :
  tallied (game s) -> tallied (game (step s i)).
Proof.
  intros H. destruct i; cbn [step].
  - destruct (leftDisabled _); [exact H|]. now apply handleResponse_tallied.
  - destruct (rightDisabled _); [exact H|]. now apply handleResponse_tallied.
  - destruct (restartHidden _); [exact H|]. apply initGame_tallied.
  - now destruct (skipHidden _).
  - unfold keydown.
    destruct (String.eqb key "ArrowLeft"), (String.eqb key "ArrowRight");
      cbn [on_game game]; auto using handleResponse_tallied.
  - unfold fire. destruct (timers (game s) !! i) as [[delay []]|]; [|exact H].
    cbn [callback]. apply showNextStimulus_tallied. exact H.
Qed.

(** X17.  In the second script, whatever happens to the page after a game was
    started (clicks, keys, Skip to End, restarts, timers, in any order), the
    score is the number of rows of the recap that carry the mark of a right
    answer. *)
Theorem score_counts_the_right_rows
    (shuffled : list Stimulus) (s0 : Screen) (inputs : list Input) :
  score (game (run inputs (initGame shuffled s0)))
  = right_rows (attemptsList (game (run inputs (initGame shuffled s0)))).
Proof.
  unfold run.
  assert (H : tallied (game (initGame shuffled s0))) by apply initGame_tallied.
  revert H. generalize (initGame shuffled s0).
  induction inputs as [|i inputs IH]; intros s H; [exact H|].
  cbn [fold_left]. apply IH. now apply step_tallied.
Qed.

(** *** The stimuli *)

Lemma even_mod2 (n : nat) : Nat.eqb (n mod 2) 0 = Nat.even n.
Proof.
  destruct (Nat.even n) eqn:E.
  - apply Nat.even_spec in E as [k ->].
    now rewrite Nat.mul_comm, Nat.Div0.mod_mul.
  - assert (O : Nat.odd n = true) by (unfold Nat.odd; now rewrite E).
    apply Nat.odd_spec in O as [k ->].
    now rewrite Nat.add_comm, Nat.mul_comm, Nat.Div0.mod_add.
Qed.

Lemma buildStimuli_rows (f : nat -> string -> nat -> string -> Stimulus)
    (types colors : list string) :
  Forall (fun l : list Stimulus => length l = length colors)
    (imap (fun tIndex type => imap (f tIndex type) colors) types).
Proof.
  apply Forall_lookup_2. intros i l Hl.
  rewrite list_lookup_imap in Hl.
  destruct (types !! i); [|discriminate]. cbn in Hl.
  injection Hl as <-. apply length_imap.
Qed.

(** X20.  The stimuli are built type by type, each type in every colour: there
    is one stimulus for each pair, the one of type number [t] and colour
    number [c] stands at place [t * |colors| + c], shows the image of that
    type and colour, and is "right" exactly when [t + c] is even. *)
Theorem stimuli_are_built_type_by_type
    (types colors : list string) (t c : nat) (type color : string) :
  types !! t = Some type ->
  colors !! c = Some color ->
  length (buildStimuli types colors) = length types * length colors /\
  buildStimuli types colors !! (t * length colors + c)
    = Some {| image := "/images/" +:+ type +:+ "_" +:+ color +:+ ".png";
              correct := if Nat.even (t + c) then "right" else "left" |}.
Proof.
  intros Ht Hc. unfold buildStimuli. split.
  - rewrite length_join.
    rewrite (sum_list_fmap_same (length colors)) by apply buildStimuli_rows.
    now rewrite length_imap.
  - apply (join_lookup_Some_same_length' (length colors));
      [apply buildStimuli_rows | now apply lookup_lt_Some in Hc |].
    eexists. split.
    + rewrite list_lookup_imap, Ht. reflexivity.
    + rewrite list_lookup_imap, Hc. cbn [fmap option_fmap option_map].
      now rewrite even_mod2.
Qed.

Lemma stimuli_are_built_type_by_type_witness :
  (alienTypes !! 1 = Some "alien02" /\ alienColors !! 2 = Some "green") /\
  length originalStimuli = 8 /\
  originalStimuli !! 6
    = Some {| image := "/images/alien02_green.png"; correct := "left" |}.
Proof.
  split; [split; reflexivity|].
  destruct (stimuli_are_built_type_by_type alienTypes alienColors 1 2
              "alien02" "green") as [Hlen Hat]; [reflexivity | reflexivity |].
  split; [exact Hlen | exact Hat].
Defined.

(** *** Skip to End *)

(** X18.  Skip to End shows the end of the game but does not end it: the
    buttons are disabled, yet an arrow key still answers the alien on show,
    with its point and its row in the recap, and when its timer fires the
    next alien is drawn on the page that says "Game Over!". *)
Theorem skip_does_not_stop_the_keys
    (s : Screen) (alien next : Stimulus) :
  skipHidden (page s) = false ->
  timers (game s) = [] ->
  stimuli (game s) !! currentIndex (game s) = Some alien ->
  stimuli (game s) !! S (currentIndex (game s)) = Some next ->
  let s' := run [ClickSkip; ClickRight; KeyDown "ArrowRight"; Fire 0] s in
  score (game s')
    = score (game s) + (if String.eqb "right" (correct alien) then 1 else 0) /\
  length (attemptsList (game s')) = S (length (attemptsList (game s))) /\
  currentIndex (game s') = S (currentIndex (game s)) /\
  gameOverHidden (page s') = false /\
  gameOverText (page s') = "Game Over!" /\
  leftDisabled (page s') = true /\ rightDisabled (page s') = true /\
  stimulusHTML (page s')
    = "<img src=" +:+ dq +:+ image next +:+ dq +:+ " alt=" +:+ dq +:+ "Alien "
        +:+ pretty (S (currentIndex (game s)) + 1) +:+ dq +:+ " style=" +:+ dq
        +:+ "max-width:100%; height:auto;" +:+ dq +:+ ">".
Proof.
  intros Hskip Htim Hst Hnext s'. subst s'.
  assert (E : run [ClickSkip; ClickRight; KeyDown "ArrowRight"; Fire 0] s
              = fire 0 {| game := handleResponse "right" (game s);
                          page := page (endGame s) |}).
  { cbn [run fold_left step]. rewrite Hskip. reflexivity. }
  rewrite E. clear E.
  rewrite (alien_handleResponse_answer "right" (game s) alien Hst).
  pose proof (lookup_lt_Some _ _ _ Hnext) as Hlt.
  destruct (String.eqb "right" (correct alien));
    unfold fire; asimpl; rewrite Htim; cbn [app lookup list_lookup];
    cbn [delete list_delete]; asimpl;
    unfold showNextStimulus; asimpl;
    (destruct (Nat.ltb_spec (S (currentIndex (game s)))
                            (length (stimuli (game s)))); [|lia]);
    rewrite Hnext; cbn; rewrite length_app; cbn;
    repeat split; try reflexivity; try lia.
Qed.

Lemma skip_does_not_stop_the_keys_witness :
  (skipHidden (page first_alien) = false /\
   timers (game first_alien) = [] /\
   stimuli (game first_alien) !! currentIndex (game first_alien)
     = Some {| image := "/images/alien01_blue.png"; correct := "right" |} /\
   stimuli (game first_alien) !! S (currentIndex (game first_alien))
     = Some {| image := "/images/alien01_brown.png"; correct := "left" |}) /\
  score (game (run [ClickSkip; ClickRight; KeyDown "ArrowRight"; Fire 0]
                   first_alien)) = 1 /\
  gameOverHidden
    (page (run [ClickSkip; ClickRight; KeyDown "ArrowRight"; Fire 0]
               first_alien)) = false.
Proof.
  split; [repeat apply conj; reflexivity|].
  pose proof (skip_does_not_stop_the_keys first_alien
                {| image := "/images/alien01_blue.png"; correct := "right" |}
                {| image := "/images/alien01_brown.png"; correct := "left" |})
    as H.
  cbv zeta in H.
  destruct H as (Hscore & _ & _ & Hover & _);
    [reflexivity | reflexivity | reflexivity | reflexivity |].
  split; [rewrite Hscore; reflexivity | exact Hover].
Defined.

End AlienFacts.
